(** * redaer: feed discovery, feed parsing and the per-link state machine

    A shallow embedding of the Go packages [store] and [links]: feed
    discovery, refresh, feed parsing and the error type are in
    src/store/feed.go; link extraction ([links.Extract], on the
    [golang.org/x/net/html] tokenizer) is in src/links/htmlextract.go; the
    link records, the store and [checkLink] are in src/unnamed/part_000.

    Modelling conventions:
    - a [time.Time] is the instant it denotes, as a [Z] count of nanoseconds
      since the Unix epoch; [Before]/[After] compare instants;
    - a Go [string] is a Rocq [string] (bytes);
    - an HTTP body is the list of tag-level markup tokens read from it
      ([rawtok]), with entities already decoded; [decode] is the
      token-level behaviour of [xml.Decoder.Token] on it (name-stack
      checking), and [Links.NewTokenizer] that of [html.Tokenizer.Next]
      (no nesting checks). The bodies are taken to hold only text inside
      the elements the HTML tokenizer reads as raw text ([script],
      [style], [title], [textarea], ...);
    - the HTTP client, [net/url] resolution and [sort.Sort] are parameters
      of the [Engine] section. *)

From Stdlib Require Import ZArith List String Ascii Bool Lia Sorted Permutation.
From stdpp Require Import base gmap strings.
Import ListNotations.
Open Scope string_scope.
Open Scope Z_scope.

(* ------------------------------------------------------------------ *)
(** ** Errors (src/store/feed.go) *)

(** The Go [error] values that flow through the engine. [ErrLink] is
    [*LinkError]; the others are the library errors passed through as is. *)
Inductive error :=
| ErrEOF                                   (* io.EOF *)
| ErrSyntax (msg : string)                 (* *xml.SyntaxError *)
| ErrLink (msg : string) (transient : bool)(* *LinkError *)
| ErrNet (msg : string)                    (* *url.Error from client.Get *)
| ErrUrl (msg : string)                    (* *url.Error from url.Parse *)
| ErrFmt (msg : string).                   (* fmt.Errorf in package links *)

Definition MkError (msg : string) : error := ErrLink msg false.
Definition MkTransientError (msg : string) : error := ErrLink msg true.

Definition IsTransient (e : error) : bool :=
  match e with
  | ErrLink _ t => t
  | _ => false
  end.

(** [err.Error()], the text [%s] prints. A [SyntaxError] prints as
    "XML syntax error on line N: msg"; line numbers are not tracked, and
    no message of the engine formats a syntax error. *)
Definition Error (e : error) : string :=
  match e with
  | ErrEOF => "EOF"
  | ErrSyntax msg => "XML syntax error: " ++ msg
  | ErrLink msg t => if t then "TRANSIENT: " ++ msg else msg
  | ErrNet msg | ErrUrl msg | ErrFmt msg => msg
  end.

(** The decimal digits of [n >= 0] in front of [acc]. *)
Fixpoint decimal (fuel : nat) (n : Z) (acc : string) : string :=
  match fuel with
  | O => acc
  | S f =>
      let acc' := String (ascii_of_nat (48 + Z.to_nat (n mod 10))) acc in
      if n <? 10 then acc' else decimal f (n / 10) acc'
  end.

(** [strconv.Itoa], the text [%d] prints. *)
Definition Itoa (z : Z) : string :=
  let digits := decimal (S (Z.to_nat (Z.log2 (Z.abs z)))) (Z.abs z) "" in
  if z <? 0 then "-" ++ digits else digits.

(* ------------------------------------------------------------------ *)
(** ** XML tokens and the decoder *)

Record Attr := mkAttr { attr_name : string; attr_value : string }.

(** Tokens as read by the lexer ([rawToken]). *)
Inductive rawtok :=
| RStart (name : string) (attrs : list Attr)
| RSelf (name : string) (attrs : list Attr)  (* an empty-element tag <name .../> *)
| REnd (name : string)
| RChar (s : string)
| ROther                       (* comment, ProcInst, Directive *)
| RBad (msg : string).         (* a lexical syntax error *)

(** Tokens as returned by [Decoder.Token]. *)
Inductive token :=
| StartElement (name : string) (attrs : list Attr)
| EndElement (name : string)
| CharData (s : string)
| OtherTok.

Definition lower_ascii (c : ascii) : ascii :=
  let n := nat_of_ascii c in
  if (65 <=? n)%nat && (n <=? 90)%nat then ascii_of_nat (n + 32) else c.

(** [strings.ToLower] (on ASCII text). *)
Fixpoint ToLower (s : string) : string :=
  match s with
  | EmptyString => EmptyString
  | String c s' => String (lower_ascii c) (ToLower s')
  end.

Definition EqualFold (a b : string) : bool := String.eqb (ToLower a) (ToLower b).

(** [xml.HTMLAutoClose]. *)
Definition HTMLAutoClose : list string :=
  ["basefont"; "br"; "area"; "link"; "img"; "param"; "hr"; "input"; "col";
   "frame"; "isindex"; "base"; "meta"].

Definition is_autoclose (name : string) : bool :=
  existsb (fun s => EqualFold s name) HTMLAutoClose.

Definition closes (t : rawtok) (name : string) : bool :=
  match t with
  | REnd n => EqualFold n name
  | _ => false
  end.

(** One raw token through [Decoder.Token], given the stack of open
    elements. Returns the tokens delivered and the new stack, or the
    syntax error. In non-strict mode an open auto-close element is closed
    first, and a mismatched end tag closes the open element and is then
    re-read. An empty-element tag gives its start element and then, from
    [needClose], its end element. *)
Fixpoint tok_step (strict : bool) (t : rawtok) (stk : list string)
  : list token * (list string + string) :=
  match stk with
  | top :: stk' =>
      if negb strict && is_autoclose top && negb (closes t top) then
        let '(ts, r) := tok_step strict t stk' in (EndElement top :: ts, r)
      else
        match t with
        | RStart n a => ([StartElement n a], inl (n :: stk))
        | RSelf n a => ([StartElement n a; EndElement n], inl stk)
        | REnd n =>
            if String.eqb n top then ([EndElement n], inl stk')
            else if strict then
              ([], inr ("element <" ++ top ++ "> closed by </" ++ n ++ ">"))
            else let '(ts, r) := tok_step strict t stk' in (EndElement top :: ts, r)
        | RChar s => ([CharData s], inl stk)
        | ROther => ([OtherTok], inl stk)
        | RBad m => ([], inr m)
        end
  | [] =>
      match t with
      | RStart n a => ([StartElement n a], inl [n])
      | RSelf n a => ([StartElement n a; EndElement n], inl [])
      | REnd n => ([], inr ("unexpected end element </" ++ n ++ ">"))
      | RChar s => ([CharData s], inl [])
      | ROther => ([OtherTok], inl [])
      | RBad m => ([], inr m)
      end
  end.

(** The whole token stream of a body: the delivered tokens, then the
    error every further [Token] call returns ([io.EOF], or the syntax
    error; an open element at end of input is "unexpected EOF"). *)
Fixpoint decode (strict : bool) (raw : list rawtok) (stk : list string)
  : list token * error :=
  match raw with
  | [] => ([], match stk with [] => ErrEOF | _ => ErrSyntax "unexpected EOF" end)
  | t :: r =>
      let '(ts, res) := tok_step strict t stk in
      match res with
      | inl stk' => let '(ts', e) := decode strict r stk' in ((ts ++ ts')%list, e)
      | inr m => (ts, ErrSyntax m)
      end
  end.

(** A decoder positioned somewhere in its stream. *)
Definition decoder : Type := (list token * error)%type.

(** [xml.NewDecoder] (strict, the default). *)
Definition NewDecoder (body : list rawtok) : decoder := decode true body [].

(** The decoder of [links.Extract]: [Strict = false], [AutoClose = HTMLAutoClose]. *)
Definition NewHTMLDecoder (body : list rawtok) : decoder := decode false body [].

(** [Decoder.Token]. *)
Definition Token (d : decoder) : (token + error) * decoder :=
  match d with
  | (t :: ts, e) => (inl t, (ts, e))
  | ([], e) => (inr e, ([], e))
  end.

(* ------------------------------------------------------------------ *)
(** ** [time.Parse] on the layouts used by [parseTime]

    The layouts are given already split into the chunks [nextStdChunk]
    cuts them into. Zone abbreviations do not move the instant (the
    process's local zone is taken to be UTC, so [lookupName] finds only
    "UTC", and a fabricated zone keeps the UTC reading); leading-integer
    overflow is not modelled. *)

Inductive chunk :=
| Lit (s : string)
| stdLongYear | stdYear | stdMonth | stdNumMonth | stdZeroMonth | stdWeekDay
| stdDay | stdZeroDay | stdHour | stdZeroMinute | stdZeroSecond
| stdTZ | stdNumTZ | stdISO8601ColonTZ.

Definition isDigitc (c : ascii) : bool :=
  let n := nat_of_ascii c in (48 <=? n)%nat && (n <=? 57)%nat.

Definition digitv (c : ascii) : Z := Z.of_nat (nat_of_ascii c) - 48.

Definition isUpper (c : ascii) : bool :=
  let n := nat_of_ascii c in (65 <=? n)%nat && (n <=? 90)%nat.

Fixpoint cutspace (s : string) : string :=
  match s with
  | String c s' => if Ascii.eqb c " " then cutspace s' else s
  | EmptyString => EmptyString
  end.

(** [skip]: match the literal text of the layout; a run of spaces in the
    layout matches a run of spaces in the value. *)
Fixpoint skip (prefix value : string) (after_space : bool) : option string :=
  match prefix with
  | EmptyString => Some value
  | String c p' =>
      if Ascii.eqb c " " then
        if after_space then skip p' value true
        else match value with
             | String v _ => if Ascii.eqb v " " then skip p' (cutspace value) true else None
             | EmptyString => skip p' EmptyString true
             end
      else match value with
           | String v v' => if Ascii.eqb v c then skip p' v' false else None
           | EmptyString => None
           end
  end.

Definition getnum (s : string) (fixed : bool) : option (Z * string) :=
  match s with
  | String a r =>
      if isDigitc a then
        match r with
        | String b r' =>
            if isDigitc b then Some (10 * digitv a + digitv b, r')
            else if fixed then None else Some (digitv a, r)
        | EmptyString => if fixed then None else Some (digitv a, r)
        end
      else None
  | EmptyString => None
  end.

Fixpoint leadingInt_aux (s : string) (acc : Z) : Z * string :=
  match s with
  | String c s' => if isDigitc c then leadingInt_aux s' (acc * 10 + digitv c) else (acc, s)
  | EmptyString => (acc, s)
  end.

Definition leadingInt (s : string) : Z * string := leadingInt_aux s 0.

Definition atoi (s : string) : option Z :=
  let '(neg, s') :=
    match s with
    | String c r =>
        if Ascii.eqb c "-" then (true, r) else if Ascii.eqb c "+" then (false, r) else (false, s)
    | EmptyString => (false, s)
    end in
  let '(x, rem) := leadingInt s' in
  match rem with
  | EmptyString => Some (if neg then - x else x)
  | _ => None
  end.

(** [match]: ASCII case-insensitive comparison of equal-length strings. *)
Fixpoint match_fold (s1 s2 : string) : bool :=
  match s1, s2 with
  | String c1 r1, String c2 r2 =>
      (Ascii.eqb c1 c2 ||
       (let l1 := N.lor (N_of_ascii c1) 32 in
        let l2 := N.lor (N_of_ascii c2) 32 in
        (l1 =? l2)%N && (97 <=? l1)%N && (l1 <=? 122)%N)) && match_fold r1 r2
  | _, _ => true
  end.

Fixpoint time_lookup (tab : list string) (i : Z) (val : string) : option (Z * string) :=
  match tab with
  | [] => None
  | v :: tab' =>
      if (String.length v <=? String.length val)%nat &&
         match_fold (substring 0 (String.length v) val) v
      then Some (i, substring (String.length v) (String.length val - String.length v) val)
      else time_lookup tab' (i + 1) val
  end.

Definition shortDayNames : list string := ["Sun"; "Mon"; "Tue"; "Wed"; "Thu"; "Fri"; "Sat"].
Definition shortMonthNames : list string :=
  ["Jan"; "Feb"; "Mar"; "Apr"; "May"; "Jun"; "Jul"; "Aug"; "Sep"; "Oct"; "Nov"; "Dec"].

Definition parseSignedOffset (value : string) : nat :=
  match value with
  | String sign r =>
      if Ascii.eqb sign "-" || Ascii.eqb sign "+" then
        let '(x, rem) := leadingInt r in
        if String.eqb r rem then 0%nat
        else if 23 <? x then 0%nat
        else (String.length value - String.length rem)%nat
      else 0%nat
  | EmptyString => 0%nat
  end.

Definition parseGMT (value : string) : nat :=
  let v := substring 3 (String.length value - 3) value in
  match v with
  | EmptyString => 3%nat
  | _ => (3 + parseSignedOffset v)%nat
  end.

Fixpoint count_upper (s : string) (k : nat) : nat :=
  match k with
  | O => O
  | S k' => match s with
            | String c s' => if isUpper c then S (count_upper s' k') else O
            | EmptyString => O
            end
  end.

Definition char_at (s : string) (i : nat) : ascii :=
  match get i s with Some c => c | None => Ascii.zero end.

Definition parseTimeZone (value : string) : option nat :=
  if (String.length value <? 3)%nat then None
  else if (4 <=? String.length value)%nat &&
          (String.eqb (substring 0 4 value) "ChST" || String.eqb (substring 0 4 value) "MeST")
  then Some 4%nat
  else if String.eqb (substring 0 3 value) "GMT" then Some (parseGMT value)
  else if Ascii.eqb (char_at value 0) "+" || Ascii.eqb (char_at value 0) "-" then
    let n := parseSignedOffset value in if (0 <? n)%nat then Some n else None
  else match count_upper value 6 with
       | 3%nat => Some 3%nat
       | 4%nat => if Ascii.eqb (char_at value 3) "T" || String.eqb (substring 0 4 value) "WITA"
                  then Some 4%nat else None
       | 5%nat => if Ascii.eqb (char_at value 4) "T" then Some 5%nat else None
       | _ => None
       end.

Record pstate := mkP {
  p_year : Z; p_month : Z; p_day : Z; p_hour : Z; p_min : Z; p_sec : Z; p_nsec : Z;
  p_zoneOffset : option Z }.

Definition pstate0 : pstate := mkP 0 (-1) (-1) 0 0 0 0 None.

Definition set_year (p : pstate) y := mkP y (p_month p) (p_day p) (p_hour p) (p_min p) (p_sec p) (p_nsec p) (p_zoneOffset p).
Definition set_month (p : pstate) m := mkP (p_year p) m (p_day p) (p_hour p) (p_min p) (p_sec p) (p_nsec p) (p_zoneOffset p).
Definition set_day (p : pstate) d := mkP (p_year p) (p_month p) d (p_hour p) (p_min p) (p_sec p) (p_nsec p) (p_zoneOffset p).
Definition set_hour (p : pstate) h := mkP (p_year p) (p_month p) (p_day p) h (p_min p) (p_sec p) (p_nsec p) (p_zoneOffset p).
Definition set_min (p : pstate) m := mkP (p_year p) (p_month p) (p_day p) (p_hour p) m (p_sec p) (p_nsec p) (p_zoneOffset p).
Definition set_sec (p : pstate) s n := mkP (p_year p) (p_month p) (p_day p) (p_hour p) (p_min p) s n (p_zoneOffset p).
Definition set_zone (p : pstate) z := mkP (p_year p) (p_month p) (p_day p) (p_hour p) (p_min p) (p_sec p) (p_nsec p) z.

Fixpoint digits_prefix (s : string) : string :=
  match s with
  | String c s' => if isDigitc c then String c (digits_prefix s') else EmptyString
  | EmptyString => EmptyString
  end.

Definition commaOrPeriod (c : ascii) : bool := Ascii.eqb c "." || Ascii.eqb c ",".

(** The fractional second that may follow a [05] chunk when the layout has
    none: [parseNanoseconds] reads at most nine digits, all digits are
    consumed. *)
Definition frac_after_seconds (value : string) : option (Z * string) :=
  match value with
  | String c r =>
      if commaOrPeriod c && isDigitc (char_at r 0) then
        let ds := digits_prefix r in
        let k := Nat.min 9 (String.length ds) in
        match atoi (substring 0 k ds) with
        | Some ns => Some (ns * 10 ^ (9 - Z.of_nat k),
                           substring (String.length ds) (String.length r - String.length ds) r)
        | None => None
        end
      else Some (0, value)
  | EmptyString => Some (0, value)
  end.

(** The numeric zone offset in seconds east of UTC. *)
Definition zone_offset (sign : ascii) (hh mm : string) : option Z :=
  match getnum hh true, getnum mm true with
  | Some (hr, _), Some (m, _) =>
      if 24 <? hr then None else if 60 <? m then None
      else if Ascii.eqb sign "+" then Some ((hr * 60 + m) * 60)
      else if Ascii.eqb sign "-" then Some (- ((hr * 60 + m) * 60))
      else None
  | _, _ => None
  end.

(** One chunk of the [Parse] loop. *)
Definition parse_chunk (c : chunk) (value : string) (p : pstate) : option (string * pstate) :=
  match c with
  | Lit s => match skip s value false with Some v => Some (v, p) | None => None end
  | stdLongYear =>
      if (String.length value <? 4)%nat || negb (isDigitc (char_at value 0)) then None
      else match atoi (substring 0 4 value) with
           | Some y => Some (substring 4 (String.length value - 4) value, set_year p y)
           | None => None
           end
  | stdYear =>
      if (String.length value <? 2)%nat then None
      else match atoi (substring 0 2 value) with
           | Some y => Some (substring 2 (String.length value - 2) value,
                             set_year p (if 69 <=? y then y + 1900 else y + 2000))
           | None => None
           end
  | stdMonth =>
      match time_lookup shortMonthNames 0 value with
      | Some (i, v) => Some (v, set_month p (i + 1))
      | None => None
      end
  | stdNumMonth | stdZeroMonth =>
      match getnum value (match c with stdZeroMonth => true | _ => false end) with
      | Some (m, v) => if (m <=? 0) || (12 <? m) then None else Some (v, set_month p m)
      | None => None
      end
  | stdWeekDay =>
      match time_lookup shortDayNames 0 value with
      | Some (_, v) => Some (v, p)
      | None => None
      end
  | stdDay | stdZeroDay =>
      match getnum value (match c with stdZeroDay => true | _ => false end) with
      | Some (d, v) => Some (v, set_day p d)
      | None => None
      end
  | stdHour =>
      match getnum value false with
      | Some (h, v) => if (h <? 0) || (24 <=? h) then None else Some (v, set_hour p h)
      | None => None
      end
  | stdZeroMinute =>
      match getnum value true with
      | Some (m, v) => if (m <? 0) || (60 <=? m) then None else Some (v, set_min p m)
      | None => None
      end
  | stdZeroSecond =>
      match getnum value true with
      | Some (s, v) =>
          if (s <? 0) || (60 <=? s) then None
          else match frac_after_seconds v with
               | Some (ns, v') => Some (v', set_sec p s ns)
               | None => None
               end
      | None => None
      end
  | stdTZ =>
      if (3 <=? String.length value)%nat && String.eqb (substring 0 3 value) "UTC"
      then Some (substring 3 (String.length value - 3) value, p)
      else match parseTimeZone value with
           | Some n => Some (substring n (String.length value - n) value, p)
           | None => None
           end
  | stdNumTZ =>
      if (String.length value <? 5)%nat then None
      else match zone_offset (char_at value 0) (substring 1 2 value) (substring 3 2 value) with
           | Some z => Some (substring 5 (String.length value - 5) value, set_zone p (Some z))
           | None => None
           end
  | stdISO8601ColonTZ =>
      match value with
      | String "Z" v => Some (v, p)
      | _ =>
          if (String.length value <? 6)%nat then None
          else if negb (Ascii.eqb (char_at value 3) ":") then None
          else match zone_offset (char_at value 0) (substring 1 2 value) (substring 4 2 value) with
               | Some z => Some (substring 6 (String.length value - 6) value, set_zone p (Some z))
               | None => None
               end
      end
  end.

Fixpoint parse_chunks (cs : list chunk) (value : string) (p : pstate) : option pstate :=
  match cs with
  | [] => match value with EmptyString => Some p | _ => None end (* extra text *)
  | c :: cs' =>
      match parse_chunk c value p with
      | Some (v, p') => parse_chunks cs' v p'
      | None => None
      end
  end.

Definition isLeap (y : Z) : bool :=
  (y mod 4 =? 0) && (negb (y mod 100 =? 0) || (y mod 400 =? 0)).

Definition daysIn (m y : Z) : Z :=
  if m =? 2 then (if isLeap y then 29 else 28)
  else if (m =? 4) || (m =? 6) || (m =? 9) || (m =? 11) then 30 else 31.

(** Days from 1970-01-01 to the proleptic Gregorian date y-m-d. *)
Definition days_from_civil (y m d : Z) : Z :=
  let y' := if m <=? 2 then y - 1 else y in
  let era := y' / 400 in
  let yoe := y' - era * 400 in
  let mp := if 2 <? m then m - 3 else m + 9 in
  let doy := (153 * mp + 2) / 5 + d - 1 in
  let doe := yoe * 365 + yoe / 4 - yoe / 100 + doy in
  era * 146097 + doe - 719468.

Definition nsPerSec : Z := 1000000000.

(** [time.Date(y, m, d, h, mi, s, ns, UTC)] as an instant. *)
Definition date_utc (y m d h mi s ns : Z) : Z :=
  ((days_from_civil y m d * 86400) + h * 3600 + mi * 60 + s) * nsPerSec + ns.

(** [time.Parse(layout, value)]. *)
Definition time_Parse (layout : list chunk) (value : string) : option Z :=
  match parse_chunks layout value pstate0 with
  | None => None
  | Some p =>
      let month := if p_month p <? 0 then 1 else p_month p in
      let day := if p_day p <? 0 then 1 else p_day p in
      if (day <? 1) || (daysIn month (p_year p) <? day) then None (* day out of range *)
      else
        let t := date_utc (p_year p) month day (p_hour p) (p_min p) (p_sec p) (p_nsec p) in
        match p_zoneOffset p with
        | Some z => Some (t - z * nsPerSec)
        | None => Some t
        end
  end.

Definition RFC822 : list chunk :=
  [stdZeroDay; Lit " "; stdMonth; Lit " "; stdYear; Lit " "; stdHour; Lit ":"; stdZeroMinute;
   Lit " "; stdTZ].
Definition RFC822Z : list chunk :=
  [stdZeroDay; Lit " "; stdMonth; Lit " "; stdYear; Lit " "; stdHour; Lit ":"; stdZeroMinute;
   Lit " "; stdNumTZ].
Definition RFC1123 : list chunk :=
  [stdWeekDay; Lit ", "; stdZeroDay; Lit " "; stdMonth; Lit " "; stdLongYear; Lit " ";
   stdHour; Lit ":"; stdZeroMinute; Lit ":"; stdZeroSecond; Lit " "; stdTZ].
Definition RFC1123Z : list chunk :=
  [stdWeekDay; Lit ", "; stdZeroDay; Lit " "; stdMonth; Lit " "; stdLongYear; Lit " ";
   stdHour; Lit ":"; stdZeroMinute; Lit ":"; stdZeroSecond; Lit " "; stdNumTZ].
Definition RFC3339 : list chunk :=
  [stdLongYear; Lit "-"; stdZeroMonth; Lit "-"; stdZeroDay; Lit "T"; stdHour; Lit ":";
   stdZeroMinute; Lit ":"; stdZeroSecond; stdISO8601ColonTZ].
(** The layout "2006-1-2". *)
Definition YMD : list chunk := [stdLongYear; Lit "-"; stdNumMonth; Lit "-"; stdDay].

(** The zero [time.Time]: January 1, year 1, 00:00:00 UTC. *)
Definition zeroTime : Z := date_utc 1 1 1 0 0 0 0.

(* ------------------------------------------------------------------ *)
(** ** Package [links] (src/links/htmlextract.go) *)

Module Links.

(** Link extracted from a HTML file. *)
Record Link := mkLink { Title : string; Url : string }.

(** The token types of [html.Tokenizer] other than [ErrorToken]; the end
    of the token list is the [ErrorToken] whose [Err] is [io.EOF] (the
    body is read from memory, so no other read error occurs). A doctype
    is read like a comment: [Extract] ignores both. *)
Inductive TokenType :=
| TextToken | StartTagToken | EndTagToken | SelfClosingTagToken | CommentToken.

(** [html.Token]: its [Type] (named [Type_], [Type] being a keyword of
    Rocq), its [Data] (the lower-cased tag name, or the text) and its
    attributes [Attr] (named [Attr_]; [Key] is [attr_name], [Val] is
    [attr_value]). *)
Record Token := mkToken { Type_ : TokenType; Data : string; Attr_ : list Attr }.

Definition lower_key (a : Attr) : Attr := mkAttr (ToLower (attr_name a)) (attr_value a).

(** How [html.Tokenizer] reads each piece of markup: tag names and
    attribute keys are lower-cased; an empty-element tag is a
    [SelfClosingTagToken]; comments, processing instructions, directives
    and malformed markup are read as (bogus) comments. Nesting is not
    checked: the tokenizer reports every end tag as it comes. *)
Definition html_token (t : rawtok) : Token :=
  match t with
  | RStart n a => mkToken StartTagToken (ToLower n) (map lower_key a)
  | RSelf n a => mkToken SelfClosingTagToken (ToLower n) (map lower_key a)
  | REnd n => mkToken EndTagToken (ToLower n) []
  | RChar s => mkToken TextToken s []
  | ROther => mkToken CommentToken "" []
  | RBad _ => mkToken CommentToken "" []
  end.

(** [html.NewTokenizer]: the tokens [Next] returns, in order. *)
Definition NewTokenizer (body : list rawtok) : list Token := map html_token body.

Definition findAttr (attrs : list Attr) (name : string) : option Attr :=
  find (fun att => String.eqb (attr_name att) name) attrs.

(** The [tokLoop] of [checkForAnchor]: the link with the text read so
    far, the nesting depth, and the tokens left. *)
Fixpoint anchorLoop (ts : list Token) (depth : Z) (lnk : Link) : (Link + error) * list Token :=
  match ts with
  | [] => (inr (ErrFmt "EOF while parsing anchor body."), [])
  | tok :: ts' =>
      match Type_ tok with
      | StartTagToken => anchorLoop ts' (depth + 1) lnk
      | EndTagToken =>
          let depth' := depth - 1 in
          if depth' <? 0 then (inl lnk, ts') else anchorLoop ts' depth' lnk
      | TextToken => anchorLoop ts' depth (mkLink (Title lnk ++ Data tok) (Url lnk))
      | _ => anchorLoop ts' depth lnk
      end
  end.

(** [checkForAnchor]: the links, the error if any, and the tokens left. *)
Definition checkForAnchor (startTok : Token) (ts : list Token) (links : list Link)
  : (list Link * option error) * list Token :=
  if negb (String.eqb (Data startTok) "a") then ((links, None), ts)
  else match findAttr (Attr_ startTok) "href" with
       | None => ((links, None), ts)
       | Some href =>
           match anchorLoop ts 0 (mkLink "" (attr_value href)) with
           | (inr err, ts') => ((links, Some err), ts')
           | (inl lnk, ts') =>
               if String.eqb (Title lnk) "" then
                 match findAttr (Attr_ startTok) "title" with
                 | Some title => (((links ++ [mkLink (attr_value title) (Url lnk)])%list, None), ts')
                 | None => ((links, None), ts')
                 end
               else (((links ++ [lnk])%list, None), ts')
           end
       end.

(** [checkForLINK]: the link and [ok]. *)
Definition checkForLINK (tok : Token) : option Link :=
  if negb (String.eqb (Data tok) "link") then None
  else match findAttr (Attr_ tok) "href" with
       | None => None
       | Some href =>
           let rv := mkLink "Some Link" (attr_value href) in
           match findAttr (Attr_ tok) "type" with
           | Some tyattr => Some (mkLink (attr_value tyattr) (Url rv))
           | None => Some rv
           end
       end.

Definition is_StartTagToken (ty : TokenType) : bool :=
  match ty with StartTagToken => true | _ => false end.

Definition checkTag (startTok : Token) (ts : list Token) (links : list Link)
  : (list Link * option error) * list Token :=
  if String.eqb (Data startTok) "a" && is_StartTagToken (Type_ startTok) then
    checkForAnchor startTok ts links
  else if String.eqb (Data startTok) "link" then
    match checkForLINK startTok with
    | Some lnk => (((links ++ [lnk])%list, None), ts)
    | None => ((links, None), ts)
    end
  else ((links, None), ts).

(** The loop of [Extract]; each round reads at least one token, so
    [S (length tokens)] rounds finish it. *)
Fixpoint Extract_go (fuel : nat) (ts : list Token) (rv : list Link) : list Link * option error :=
  match fuel with
  | O => (rv, None)
  | S f =>
      match ts with
      | [] => (rv, None)
      | tok :: ts' =>
          match Type_ tok with
          | SelfClosingTagToken | StartTagToken =>
              match checkTag tok ts' rv with
              | ((rv', Some err), _) => (rv', Some err)
              | ((rv', None), ts'') => Extract_go f ts'' rv'
              end
          | _ => Extract_go f ts' rv
          end
      end
  end.

(** [links.Extract]: the links found, and the error if any (with the
    links read before it). *)
Definition Extract (body : list rawtok) : list Link * option error :=
  let ts := NewTokenizer body in Extract_go (S (length ts)) ts [].

(** The nesting depth [anchorLoop] reaches after the tokens [ts] from
    the depth [d], or [None] when an end tag among them takes it below
    zero (which ends the anchor). *)
Fixpoint anchor_depth (ts : list Token) (d : Z) : option Z :=
  match ts with
  | [] => Some d
  | tok :: ts' =>
      match Type_ tok with
      | StartTagToken => anchor_depth ts' (d + 1)
      | EndTagToken => if d - 1 <? 0 then None else anchor_depth ts' (d - 1)
      | _ => anchor_depth ts' d
      end
  end.

(** The text tokens of [ts], concatenated. *)
Fixpoint anchor_text (ts : list Token) : string :=
  match ts with
  | [] => ""
  | tok :: ts' =>
      match Type_ tok with
      | TextToken => Data tok ++ anchor_text ts'
      | _ => anchor_text ts'
      end
  end.

End Links.

(* ------------------------------------------------------------------ *)
(** ** The store data model (src/unnamed/part_000) *)

Inductive LinkState :=
| LinkIsNew | LinkNoFeedFound | LinkTransientError | LinkHasFeed | LinkIgnore.

Module Art.
Record Article := mkArticle { Url : string; Title : string; PubDate : Z }.
End Art.
Abbreviation Article := Art.Article.

Record LinkDetails := mkLD {
  BaseUrl : string;
  State : LinkState;
  FeedUrl : string;
  LastError : option error;
  Title : string;
  LastRead : Z;
  LastChecked : Z;
  Articles : list Article }.

Definition set_State (ld : LinkDetails) s :=
  mkLD (BaseUrl ld) s (FeedUrl ld) (LastError ld) (Title ld) (LastRead ld) (LastChecked ld) (Articles ld).
Definition set_FeedUrl (ld : LinkDetails) u :=
  mkLD (BaseUrl ld) (State ld) u (LastError ld) (Title ld) (LastRead ld) (LastChecked ld) (Articles ld).
Definition set_LastError (ld : LinkDetails) e :=
  mkLD (BaseUrl ld) (State ld) (FeedUrl ld) e (Title ld) (LastRead ld) (LastChecked ld) (Articles ld).
Definition set_LastRead (ld : LinkDetails) t :=
  mkLD (BaseUrl ld) (State ld) (FeedUrl ld) (LastError ld) (Title ld) t (LastChecked ld) (Articles ld).
Definition set_LastChecked (ld : LinkDetails) t :=
  mkLD (BaseUrl ld) (State ld) (FeedUrl ld) (LastError ld) (Title ld) (LastRead ld) t (Articles ld).
Definition set_Articles (ld : LinkDetails) a :=
  mkLD (BaseUrl ld) (State ld) (FeedUrl ld) (LastError ld) (Title ld) (LastRead ld) (LastChecked ld) a.

Definition ErrorOccurred (e : error) (link : LinkDetails) : LinkDetails :=
  set_LastError (set_State link LinkTransientError) (Some e).

(** [UnreadArticles]: the articles published after [LastRead]. *)
Definition UnreadArticles (ld : LinkDetails) : list Article :=
  List.filter (fun art => LastRead ld <? Art.PubDate art) (Articles ld).

(** [MarkAllAsRead]. *)
Definition MarkAllAsRead (ld : LinkDetails) : LinkDetails :=
  let latest := fold_left (fun latest art => if latest <? Art.PubDate art then Art.PubDate art else latest)
                          (Articles ld) zeroTime in
  if LastRead ld <? latest then set_LastRead ld latest else ld.

(* ------------------------------------------------------------------ *)
(** ** Feed parsing (feed.go) *)

(** [parseTime]: the layouts are tried in this order. *)
Definition parseTime_formats : list (list chunk) :=
  [RFC822; RFC822Z; RFC1123; RFC1123Z; RFC3339; YMD].

Fixpoint parseTime_try (formats : list (list chunk)) (accum : string) : Z + error :=
  match formats with
  | [] => inr (MkError ("Could not parse time: " ++ accum))
  | f :: fs =>
      match time_Parse f accum with
      | Some tm => inl tm
      | None => parseTime_try fs accum
      end
  end.

Definition parseTime (accum : string) : Z + error := parseTime_try parseTime_formats accum.

Definition set_Url (a : Article) u := Art.mkArticle u (Art.Title a) (Art.PubDate a).
Definition set_ATitle (a : Article) t := Art.mkArticle (Art.Url a) t (Art.PubDate a).
Definition set_PubDate (a : Article) p := Art.mkArticle (Art.Url a) (Art.Title a) p.

(** [Article{}]. *)
Definition emptyArticle : Article := Art.mkArticle "" "" zeroTime.

(** The [href] loop of an Atom [link]: the last [href] attribute wins. *)
Fixpoint href_of (attrs : list Attr) (found : option string) : option string :=
  match attrs with
  | [] => found
  | a :: r => href_of r (if String.eqb (attr_name a) "href" then Some (attr_value a) else found)
  end.

Definition is_date_name (n : string) : bool :=
  String.eqb n "pubDate" || String.eqb n "updated" || String.eqb n "date".

(** The loop of [genericExtractArticle] over the remaining tokens
    [ts] (then error [e]), with the text [accum] and the article [rv] built
    so far. Returns the article or the error, and the rest of the stream. *)
Fixpoint genericExtractArticle_go (ts : list token) (e : error) (looksLikeAtom : bool)
  (accum : string) (rv : Article) : (Article + error) * decoder :=
  match ts with
  | [] => (inr e, ([], e))
  | t :: ts' =>
      match t with
      | StartElement n attrs =>
          if looksLikeAtom && String.eqb n "link" then
            match href_of attrs None with
            | Some v => genericExtractArticle_go ts' e looksLikeAtom "" (set_Url rv v)
            | None => (inr (MkError "Could not find HREF attribute for ENTRY LINK."), (ts', e))
            end
          else genericExtractArticle_go ts' e looksLikeAtom "" rv
      | EndElement n =>
          if String.eqb n "item" || String.eqb n "entry" then (inl rv, (ts', e))
          else if String.eqb n "title" then
            genericExtractArticle_go ts' e looksLikeAtom accum (set_ATitle rv (Art.Title rv ++ accum))
          else if String.eqb n "link" then
            genericExtractArticle_go ts' e looksLikeAtom accum
              (if looksLikeAtom then rv else set_Url rv accum)
          else if is_date_name n then
            match parseTime accum with
            | inl tm => genericExtractArticle_go ts' e looksLikeAtom accum (set_PubDate rv tm)
            | inr err => (inr err, (ts', e))
            end
          else genericExtractArticle_go ts' e looksLikeAtom accum rv
      | CharData s => genericExtractArticle_go ts' e looksLikeAtom (accum ++ s) rv
      | OtherTok => genericExtractArticle_go ts' e looksLikeAtom accum rv
      end
  end.

(** [genericExtractArticle] (its unused [link] argument is dropped). *)
Definition genericExtractArticle (d : decoder) (looksLikeAtom : bool) : (Article + error) * decoder :=
  genericExtractArticle_go (fst d) (snd d) looksLikeAtom "" emptyArticle.

(** The loop of [feedParser]: articles are appended to [link.Articles];
    each round reads at least one token. *)
Fixpoint feedParser_go (fuel : nat) (d : decoder) (link : LinkDetails) : option error * LinkDetails :=
  match fuel with
  | O => (None, link)
  | S f =>
      match Token d with
      | (inr ErrEOF, _) => (None, link)
      | (inr err, _) => (Some err, link)
      | (inl (StartElement n _), d') =>
          let looksLikeAtom := String.eqb n "entry" in
          if String.eqb n "item" || looksLikeAtom then
            match genericExtractArticle d' looksLikeAtom with
            | (inr err, _) => (Some err, link)
            | (inl art, d'') => feedParser_go f d'' (set_Articles link (Articles link ++ [art]))
            end
          else feedParser_go f d' link
      | (inl _, d') => feedParser_go f d' link
      end
  end.

(** An [ArticleParser]: parses a feed on a stream that has already
    consumed the root start element. *)
Definition ArticleParser : Type :=
  decoder -> (string * list Attr) -> LinkDetails -> option error * LinkDetails.

Definition feedParser : ArticleParser :=
  fun d _ link => feedParser_go (S (length (fst d))) d link.

Definition parseFunctionForFeed (root : string * list Attr) : option ArticleParser :=
  let tag := fst root in
  if String.eqb tag "rss" then Some feedParser
  else if String.eqb tag "feed" then Some feedParser
  else if String.eqb tag "RDF" then Some feedParser
  else None.

Fixpoint firstStartElement_go (ts : list token) (e : error)
  : ((string * list Attr) * decoder) + error :=
  match ts with
  | [] => inr (MkError "No start element found.")
  | StartElement n a :: ts' => inl ((n, a), (ts', e))
  | _ :: ts' => firstStartElement_go ts' e
  end.

Definition firstStartElement (d : decoder) : ((string * list Attr) * decoder) + error :=
  firstStartElement_go (fst d) (snd d).

Definition recognizedFeedFormat (body : list rawtok) : bool :=
  match firstStartElement (NewDecoder body) with
  | inl (start, _) => match parseFunctionForFeed start with Some _ => true | None => false end
  | inr _ => false
  end.

Definition feedHints : list string := ["rss"; "atom"; "feed"].
Definition urlSuffixes : list string :=
  ["atom.xml"; "rss.xml"; "feed.xml"; "feed=rss2"; "feed=atom"; "feed=rss"; "feed"].

(** [strings.Contains]. *)
Fixpoint Contains (s sub : string) : bool :=
  String.prefix sub s ||
  match s with
  | EmptyString => false
  | String _ s' => Contains s' sub
  end.

(** [strings.HasSuffix]. *)
Definition HasSuffix (s suffix : string) : bool :=
  (String.length suffix <=? String.length s)%nat &&
  String.eqb (substring (String.length s - String.length suffix) (String.length suffix) s) suffix.

Definition namedLikeFeedLink (link : Links.Link) : bool :=
  let t := ToLower (Links.Title link) in
  existsb (fun cand => Contains t cand) feedHints ||
  (let u := ToLower (Links.Url link) in
   existsb (fun cand => String.eqb u cand || HasSuffix u cand) urlSuffixes).

Definition contentTypes : list string :=
  ["text/xml"; "text/plain"; "application/xml"; "application/rss+xml"; "application/atom+xml"].

Definition validFeedContentType (ct : list string) : bool :=
  existsb (fun c => existsb (fun pref => String.prefix pref c) contentTypes) ct.

(** [minCheckDuration]: five minutes, in nanoseconds. *)
Definition minCheckDuration : Z := 300000000000.

(** [Time.Sub]: the duration [t - u], saturated to the [int64] range. *)
Definition time_Sub (t u : Z) : Z :=
  Z.max (- 2 ^ 63) (Z.min (2 ^ 63 - 1) (t - u)).

(* ------------------------------------------------------------------ *)
(** ** The link store (src/unnamed/part_000) *)

(** A pointer to a [LinkDetails]. *)
Abbreviation loc := positive.

(** [LinkStore]: [Links] maps a base URL to a pointer into the heap of
    [LinkDetails] records; [noted] lists the URLs of this session. *)
Record LinkStore := mkStore {
  Links : gmap string loc;
  heap : gmap loc LinkDetails;
  next_loc : loc;
  noted : list string }.

Definition newStore : LinkStore := mkStore ∅ ∅ 1%positive [].

(** [&LinkDetails{BaseUrl: url, State: LinkIsNew, Articles: [], Title: title}]. *)
Definition newLinkDetails (url title : string) : LinkDetails :=
  mkLD url LinkIsNew "" None title zeroTime zeroTime [].

(** [InterestedIn(url, title)]. *)
Definition InterestedIn (url title : string) (ls : LinkStore) : LinkStore :=
  match Links ls !! url with
  | Some _ => mkStore (Links ls) (heap ls) (next_loc ls) (noted ls ++ [url])
  | None =>
      let l := next_loc ls in
      mkStore (<[url := l]> (Links ls)) (<[l := newLinkDetails url title]> (heap ls))
              (Pos.succ l) (noted ls ++ [url])
  end.

(** What [CheckForUpdates] sends on [linkIn], in order: [store.Links[base]]
    for every noted base URL ([None] is a nil pointer). Each value sent is
    taken by one worker, which runs [checkLink] on the record it points to. *)
Definition CheckForUpdates_sends (ls : LinkStore) : list (option loc) :=
  map (fun base => Links ls !! base) (noted ls).

(** The life cycle in the comment on [Load]: a new store, then
    [InterestedIn(url, title)] for each configured link, in order. *)
Definition interested_all (calls : list (string * string)) : LinkStore :=
  fold_left (fun ls c => InterestedIn (fst c) (snd c) ls) calls newStore.

(** What the store's pointers satisfy: every URL of [Links] points to an
    allocated record with that [BaseUrl], allocated locations lie below
    [next_loc], and every noted URL is in [Links]. *)
Definition store_ok (ls : LinkStore) : Prop :=
  (forall u l, Links ls !! u = Some l -> exists ld, heap ls !! l = Some ld /\ BaseUrl ld = u) /\
  (forall l ld, heap ls !! l = Some ld -> (l < next_loc ls)%positive) /\
  Forall (fun u => Links ls !! u <> None) (noted ls).

(* ------------------------------------------------------------------ *)
(** ** Discovery, refresh and the state machine *)

(** The result of [client.Get]: a transport error (the text of the
    [*url.Error]), or a response with its status code, its status line
    ([resp.Status], e.g. "200 OK"), its [Content-Type] header values and
    its body. *)
Inductive response :=
| NetFail (msg : string)
| Resp (StatusCode : Z) (Status : string) (content_type : list string) (body : list rawtok).

(** Go's [insertionSort] on an [ArticleArray], which is what [sort.Sort]
    runs on at most twelve elements: each element moves left past the
    elements whose [PubDate] is strictly later. *)
Fixpoint insertArticle (a : Article) (l : list Article) : list Article :=
  match l with
  | [] => [a]
  | b :: l' => if Art.PubDate a <? Art.PubDate b then a :: b :: l' else b :: insertArticle a l'
  end.

Definition insertionSort (l : list Article) : list Article :=
  fold_left (fun acc a => insertArticle a acc) l [].

(** [ArticleArray.Swap]: [aa[i], aa[j] = aa[j], aa[i]]; an index out of
    range panics ([None]). *)
Definition ArticleArray_Swap (aa : list Article) (i j : nat) : option (list Article) :=
  match aa !! j, aa !! i with
  | Some aj, Some ai => Some (<[j := ai]> (<[i := aj]> aa))
  | _, _ => None
  end.

(* ------------------------------------------------------------------ *)
(** ** A concrete site, used by the examples at the end of the file *)

Module Site.

(** URL resolution on absolute [https] URLs and root-relative paths. *)
Definition ResolveReference (base ref : string) : string :=
  if String.prefix "https://" ref then ref else base ++ ref.

Definition href (u : string) : list Attr := [mkAttr "href" u].

(** The main page: a feed link and another link. *)
Definition page : list rawtok :=
  [RStart "html" []; RStart "a" (href "/feed.xml"); RChar "RSS Feed"; REnd "a";
   RStart "a" (href "/about"); RChar "About"; REnd "a"; REnd "html"].

Definition item (title link date : string) : list rawtok :=
  [RStart "item" []; RStart "title" []; RChar title; REnd "title";
   RStart "link" []; RChar link; REnd "link";
   RStart "pubDate" []; RChar date; REnd "pubDate"; REnd "item"].

(** An RSS feed with two items, the later one first. *)
Definition feedbody : list rawtok :=
  (RStart "rss" [] :: item "T1" "https://x/a" "2021-1-1" ++ item "T0" "/b" "2020-1-1" ++ [REnd "rss"])%list.

(** An HTML page served where a feed was expected. *)
Definition htmlbody : list rawtok := [RStart "html" []; RChar "moved"; REnd "html"].

(** A feed whose channel has a title and a well-formed item, and then
    an item closed by the wrong end tag. *)
Definition badfeed_pre : list rawtok :=
  ([RStart "rss" []; RStart "channel" []; RStart "title" []; RChar "X"; REnd "title"] ++
   item "T0" "/b" "2020-1-1" ++ [RStart "item" [mkAttr "about" "x"]; RChar "x"])%list.

Definition badfeed : list rawtok :=
  (badfeed_pre ++ [REnd "channel"; REnd "channel"; REnd "rss"])%list.


Definition Get (u : string) : response :=
  if String.eqb u "https://x" then Resp 200 "200 OK" ["text/html"] page
  else if String.eqb u "https://x/feed.xml" then Resp 200 "200 OK" ["application/rss+xml"] feedbody
  else if String.eqb u "https://x/moved.xml" then Resp 200 "200 OK" ["text/xml"] htmlbody
  else if String.eqb u "https://x/bad.xml" then Resp 200 "200 OK" ["text/xml"] badfeed
  else NetFail "connection refused".

Definition now : Z := 1700000000000000000.

Definition oldArticle : Article := Art.mkArticle "https://x/old" "Old" 1600000000000000000.

(** A record with a feed, last checked [age] nanoseconds before [now]. *)
Definition withFeed (feedUrl : string) (age : Z) : LinkDetails :=
  mkLD "https://x" LinkHasFeed feedUrl None "X" zeroTime (now - age) [oldArticle].

End Site.

Section Engine.

(** [net/url]: [url.Parse], [URL.ResolveReference] and [URL.String]. *)
Variable url_t : Type.
Variable url_Parse : string -> url_t + error.
Variable ResolveReference : url_t -> url_t -> url_t.
Variable url_String : url_t -> string.
(** [client.Get]. *)
Variable Get : string -> response.
(** [sort.Sort] on an [ArticleArray] (ordered by [PubDate]). *)
Variable sort_Sort : list Article -> list Article.

Definition forceAbsolute (base maybeRel : string) : string + error :=
  match url_Parse maybeRel with
  | inr err => inr err
  | inl maybeRelU =>
      match url_Parse base with
      | inr err => inr err
      | inl baseU => inl (url_String (ResolveReference baseU maybeRelU))
      end
  end.

(** [makeFeedRequest]: the response header and body, or the error; with
    the list of URLs fetched. *)
Definition makeFeedRequest (baseUrl reqUrl : string)
  : ((list string * list rawtok) + error) * list string :=
  match forceAbsolute baseUrl reqUrl with
  | inr err => (inr err, [])
  | inl absU =>
      (match Get absU with
       | NetFail m => inr (ErrNet m)
       | Resp st status ct body =>
           if st =? 200 then inl (ct, body) else inr (MkError ("Bad response: " ++ status))
       end, [absU])
  end.

Definition checkForFeedUrl (baseUrl : string) (link : Links.Link) : (string * bool) * list string :=
  if negb (namedLikeFeedLink link) then (("", false), [])
  else match makeFeedRequest baseUrl (Links.Url link) with
       | (inr _, gets) => (("", false), gets)
       | (inl (ct, body), gets) =>
           if validFeedContentType ct && recognizedFeedFormat body
           then ((Links.Url link, true), gets) else (("", false), gets)
       end.

(** The [for _, link := range links] loop of [findFeedUrl]. *)
Fixpoint probeLinks (baseUrl : string) (links : list Links.Link) : option string * list string :=
  match links with
  | [] => (None, [])
  | link :: rest =>
      let '((feedUrl, ok), gets) := checkForFeedUrl baseUrl link in
      if ok then (Some feedUrl, gets)
      else let '(r, gets') := probeLinks baseUrl rest in (r, (gets ++ gets')%list)
  end.

Definition findFeedUrl (ld : LinkDetails) : (string + error) * list string :=
  match Get (BaseUrl ld) with
  | NetFail m => (inr (MkTransientError ("findFeedUrl: " ++ m)), [BaseUrl ld])
  | Resp st status _ body =>
      if st =? 200 then
        let '(links, err) := Links.Extract body in
        match err, links with
        | Some e, [] => (inr (MkTransientError ("findFeedUrl extract: " ++ Error e)), [BaseUrl ld])
        | _, _ =>
            let '(r, gets) := probeLinks (BaseUrl ld) links in
            (match r with
             | Some feedUrl => inl feedUrl
             | None => inr (MkTransientError ("findFeedUrl: No link found in main page for " ++ Title ld))
             end, BaseUrl ld :: gets)
        end
      else if 500 <=? st then (inr (MkTransientError ("findFeedUrl: Server error " ++ status)), [BaseUrl ld])
      else (inr (MkError ("Error " ++ Itoa st ++ " reading " ++ BaseUrl ld)), [BaseUrl ld])
  end.

(** The loop making article URLs absolute; the first failure aborts it. *)
Fixpoint absolutize (baseUrl : string) (arts : list Article) : list Article + error :=
  match arts with
  | [] => inl []
  | art :: rest =>
      match forceAbsolute baseUrl (Art.Url art) with
      | inr err => inr err
      | inl url =>
          match absolutize baseUrl rest with
          | inl rest' => inl (set_Url art url :: rest')
          | inr err => inr err
          end
      end
  end.

(** [checkForArticles], at the instant [moment] returned by [time.Now]. *)
Definition checkForArticles (moment : Z) (link0 : LinkDetails) : LinkDetails * list string :=
  let link := set_Articles link0 [] in
  if time_Sub moment (LastChecked link) <? minCheckDuration then (link, [])
  else
    let '(r, gets) := makeFeedRequest (BaseUrl link) (FeedUrl link) in
    (match r with
     | inr err => ErrorOccurred err link
     | inl (_, body) =>
         match firstStartElement (NewDecoder body) with
         | inr err => ErrorOccurred err link
         | inl (first, ring) =>
             match parseFunctionForFeed first with
             | None => link
             | Some pfn =>
                 match pfn ring first link with
                 | (None, link1) =>
                     let arts := if (1 <? length (Articles link1))%nat
                                 then sort_Sort (Articles link1) else Articles link1 in
                     match absolutize (BaseUrl link1) arts with
                     | inl arts' => set_LastChecked (set_Articles link1 arts') moment
                     | inr err => set_Articles (ErrorOccurred err (set_Articles link1 arts)) []
                     end
                 | (Some err, link1) => set_Articles (ErrorOccurred err link1) []
                 end
             end
         end
     end, gets).

(** One round of the [for stateNeedsCheck] loop of [checkLink]: the
    record after the round, whether another round follows, and the URLs
    fetched. *)
Definition checkLink_step (moment : Z) (ld : LinkDetails) : LinkDetails * bool * list string :=
  match State ld with
  | LinkTransientError =>
      (set_State ld (if String.eqb (FeedUrl ld) "" then LinkIsNew else LinkHasFeed), true, [])
  | LinkIsNew =>
      let '(r, gets) := findFeedUrl ld in
      match r with
      | inr err =>
          if IsTransient err then (ErrorOccurred err ld, false, gets)
          else (set_State ld LinkNoFeedFound, false, gets)
      | inl feedUrl => (set_FeedUrl (set_State ld LinkHasFeed) feedUrl, true, gets)
      end
  | LinkHasFeed => let '(ld', gets) := checkForArticles moment ld in (ld', false, gets)
  | LinkIgnore => (ld, false, [])
  | LinkNoFeedFound => (ld, false, [])
  end.

Fixpoint checkLink_loop (fuel : nat) (moment : Z) (ld : LinkDetails) : LinkDetails * list string :=
  match fuel with
  | O => (ld, [])
  | S f =>
      let '(ld', again, gets) := checkLink_step moment ld in
      if again then let '(ld'', gets') := checkLink_loop f moment ld' in (ld'', (gets ++ gets')%list)
      else (ld', gets)
  end.

(** [checkLink]: the loop runs at most three rounds
    (TransientError, New, HasFeed); see [checkLink_loop_fuel]. *)
Definition checkLink (moment : Z) (ld : LinkDetails) : LinkDetails * list string :=
  checkLink_loop 3 moment ld.




(** An end tag closing an item or an entry. *)
Definition is_item_end (t : token) : bool :=
  match t with
  | EndElement n => String.eqb n "item" || String.eqb n "entry"
  | _ => false
  end.

(** An end tag closing a [title] element. *)
Definition is_title_end (t : token) : bool :=
  match t with
  | EndElement n => String.eqb n "title"
  | _ => false
  end.

(** A start tag opening an item or an entry. *)
Definition is_item_start (t : token) : bool :=
  match t with
  | StartElement n _ => String.eqb n "item" || String.eqb n "entry"
  | _ => false
  end.

(** A start tag. *)
Definition is_start (t : token) : bool :=
  match t with
  | StartElement _ _ => true
  | _ => false
  end.

(** The token the strict decoder delivers for a raw token read outside
    any element, when that token is text or markup other than a tag. *)
Definition outside_token (t : rawtok) : token :=
  match t with
  | RChar s => CharData s
  | _ => OtherTok
  end.

(** The stack of elements left open by [decode] after reading [raw]
    from the stack [stk], or [None] when a syntax error occurs in [raw]. *)
Fixpoint decode_stack (strict : bool) (raw : list rawtok) (stk : list string) : option (list string) :=
  match raw with
  | [] => Some stk
  | t :: r =>
      match snd (tok_step strict t stk) with
      | inl stk' => decode_stack strict r stk'
      | inr _ => None
      end
  end.

(** The errors an article parse can end with: the error ending the
    stream, a missing Atom [href], or a date no layout parses. *)
Definition article_error (e err : error) : Prop :=
  err = e \/ err = MkError "Could not find HREF attribute for ENTRY LINK." \/
  exists accum, err = MkError ("Could not parse time: " ++ accum).

(** An end tag of a [pubDate], [updated] or [date] element. *)
Definition is_date_end (t : token) : bool :=
  match t with
  | EndElement n => is_date_name n
  | _ => false
  end.

(** Publish times non-decreasing by index. *)
Definition nondecreasing (l : list Article) : Prop :=
  forall i j a b, (i < j)%nat -> nth_error l i = Some a -> nth_error l j = Some b ->
  Art.PubDate a <= Art.PubDate b.

(** A candidate's probe is accepted: the request succeeds with status 200,
    a feed content type and a feed root element. *)
Definition feed_probe_ok (baseUrl : string) (link : Links.Link) : bool :=
  match makeFeedRequest baseUrl (Links.Url link) with
  | (inl (ct, body), _) => validFeedContentType ct && recognizedFeedFormat body
  | (inr _, _) => false
  end.

(** The URLs [checkForFeedUrl] fetches for a link. *)
Definition probe_gets (baseUrl : string) (link : Links.Link) : list string :=
  snd (checkForFeedUrl baseUrl link).

(* ------------------------------------------------------------------ *)
(** ** Facts about the engine *)

Lemma set_Articles_twice (ld : LinkDetails) a b :
  set_Articles (set_Articles ld a) b = set_Articles ld b.
Proof. destruct ld; reflexivity. Qed.

Lemma feedParser_go_only_articles fuel d (link : LinkDetails) :
  exists arts, snd (feedParser_go fuel d link) = set_Articles link arts.
Proof.
  revert d link; induction fuel as [|f IH]; intros d link; simpl.
  - exists (Articles link); destruct link; reflexivity.
  - destruct (Token d) as [[t|e] d'].
    + destruct t as [n a| | |].
      * destruct (String.eqb n "item" || String.eqb n "entry").
        -- destruct (genericExtractArticle d' (String.eqb n "entry")) as [[art|err] d''].
           ++ destruct (IH d'' (set_Articles link (Articles link ++ [art]))) as [arts H].
              rewrite H, set_Articles_twice; eauto.
           ++ exists (Articles link); destruct link; reflexivity.
        -- apply IH.
      * apply IH.
      * apply IH.
      * apply IH.
    + exists (Articles link); destruct e; destruct link; reflexivity.
Qed.

Lemma parseFunctionForFeed_Some first pfn :
  parseFunctionForFeed first = Some pfn -> pfn = feedParser.
Proof.
  unfold parseFunctionForFeed.
  destruct (String.eqb (fst first) "rss"); [congruence|].
  destruct (String.eqb (fst first) "feed"); [congruence|].
  destruct (String.eqb (fst first) "RDF"); congruence.
Qed.

Lemma parse_feed_only_articles first pfn ring (link : LinkDetails) :
  parseFunctionForFeed first = Some pfn ->
  exists arts, snd (pfn ring first link) = set_Articles link arts.
Proof.
  intros H; apply parseFunctionForFeed_Some in H; subst pfn.
  apply feedParser_go_only_articles.
Qed.

Ltac frame_done l := destruct l; simpl; repeat split; auto.

(** [checkForArticles] touches only [State], [LastError], [LastChecked]
    and [Articles], and the state it leaves is the old one or
    [LinkTransientError]. *)
Lemma checkForArticles_frame moment (ld : LinkDetails) :
  let r := fst (checkForArticles moment ld) in
  BaseUrl r = BaseUrl ld /\ FeedUrl r = FeedUrl ld /\ Title r = Title ld /\
  LastRead r = LastRead ld /\ (State r = State ld \/ State r = LinkTransientError).
Proof.
  unfold checkForArticles.
  destruct (time_Sub moment (LastChecked (set_Articles ld [])) <? minCheckDuration).
  { frame_done ld. }
  destruct (makeFeedRequest _ _) as [[[ct body]|err] gets]; [|frame_done ld].
  destruct (firstStartElement (NewDecoder body)) as [[first ring]|err]; [|frame_done ld].
  destruct (parseFunctionForFeed first) as [pfn|] eqn:Hp; [|frame_done ld].
  destruct (parse_feed_only_articles first pfn ring (set_Articles ld []) Hp) as [arts Ha].
  destruct (pfn ring first (set_Articles ld [])) as [[err|] link1]; simpl in Ha; subst link1.
  - frame_done ld.
  - destruct (absolutize _ _); frame_done ld.
Qed.

Lemma checkLink_step_HasFeed moment (ld : LinkDetails) :
  State ld = LinkHasFeed ->
  checkLink_step moment ld = (fst (checkForArticles moment ld), false, snd (checkForArticles moment ld)).
Proof.
  intros H; unfold checkLink_step; rewrite H.
  destruct (checkForArticles moment ld); reflexivity.
Qed.

Lemma checkLink_loop_HasFeed n moment (ld : LinkDetails) :
  State ld = LinkHasFeed -> checkLink_loop (S n) moment ld = checkForArticles moment ld.
Proof.
  intros H; simpl; rewrite (checkLink_step_HasFeed moment ld H).
  destruct (checkForArticles moment ld); reflexivity.
Qed.

Lemma checkLink_loop_S f moment (ld : LinkDetails) :
  checkLink_loop (S f) moment ld =
  let '(ld', again, gets) := checkLink_step moment ld in
  if again then let '(ld'', gets') := checkLink_loop f moment ld' in (ld'', (gets ++ gets')%list)
  else (ld', gets).
Proof. reflexivity. Qed.

Lemma checkLink_loop_New n moment (ld : LinkDetails) :
  State ld = LinkIsNew -> checkLink_loop (S (S n)) moment ld = checkLink_loop 2 moment ld.
Proof.
  intros H; rewrite (checkLink_loop_S (S n)), (checkLink_loop_S 1).
  unfold checkLink_step; rewrite H.
  destruct (findFeedUrl ld) as [[feedUrl|err] gets].
  - rewrite !checkLink_loop_HasFeed by (destruct ld; reflexivity). reflexivity.
  - destruct (IsTransient err); reflexivity.
Qed.

(** Three rounds suffice: more fuel changes nothing. *)
Lemma checkLink_loop_fuel n moment (ld : LinkDetails) :
  (3 <= n)%nat -> checkLink_loop n moment ld = checkLink moment ld.
Proof.
  intros Hn; unfold checkLink.
  destruct n as [|[|[|n]]]; try lia.
  destruct (State ld) eqn:Hs.
  - rewrite (checkLink_loop_New (S n)), (checkLink_loop_New 1) by exact Hs. reflexivity.
  - rewrite !checkLink_loop_S; unfold checkLink_step; rewrite Hs; reflexivity.
  - rewrite (checkLink_loop_S (S (S n))), (checkLink_loop_S 2).
    unfold checkLink_step; rewrite Hs.
    destruct (String.eqb (FeedUrl ld) "").
    + rewrite (checkLink_loop_New n) by (destruct ld; reflexivity). reflexivity.
    + rewrite !checkLink_loop_HasFeed by (destruct ld; reflexivity). reflexivity.
  - rewrite !checkLink_loop_HasFeed by exact Hs. reflexivity.
  - rewrite !checkLink_loop_S; unfold checkLink_step; rewrite Hs; reflexivity.
Qed.

Lemma checkForArticles_FeedUrl moment (ld : LinkDetails) :
  FeedUrl (fst (checkForArticles moment ld)) = FeedUrl ld.
Proof. apply (checkForArticles_frame moment ld). Qed.





Lemma checkLink_step_identity moment (ld : LinkDetails) :
  let r := fst (fst (checkLink_step moment ld)) in
  BaseUrl r = BaseUrl ld /\ Title r = Title ld /\ LastRead r = LastRead ld.
Proof.
  unfold checkLink_step. destruct (State ld).
  - destruct (findFeedUrl ld) as [[u|err] gets]; [|destruct (IsTransient err)]; simpl; auto.
  - simpl; auto.
  - simpl; auto.
  - pose proof (checkForArticles_frame moment ld) as (H1 & _ & H3 & H4 & _).
    destruct (checkForArticles moment ld); simpl in *; auto.
  - simpl; auto.
Qed.




(** C2: a record in [LinkTransientError] goes to [LinkHasFeed] when it has
    a feed URL, and the same pass then runs the article refresh on it with
    that same URL and no discovery; without a feed URL it goes to
    [LinkIsNew] and the same pass continues from there. *)
Theorem checkLink_TransientError_recovers moment (ld : LinkDetails) :
  State ld = LinkTransientError ->
  (FeedUrl ld <> "" ->
     checkLink moment ld = checkForArticles moment (set_State ld LinkHasFeed) /\
     FeedUrl (fst (checkLink moment ld)) = FeedUrl ld) /\
  (FeedUrl ld = "" -> checkLink moment ld = checkLink moment (set_State ld LinkIsNew)).
Proof.
  intros Hs; split.
  - intros Hf.
    assert (E : checkLink moment ld = checkForArticles moment (set_State ld LinkHasFeed)).
    { unfold checkLink; rewrite checkLink_loop_S; unfold checkLink_step at 1; rewrite Hs.
      apply String.eqb_neq in Hf; rewrite Hf.
      rewrite checkLink_loop_HasFeed by (destruct ld; reflexivity).
      destruct (checkForArticles moment (set_State ld LinkHasFeed)); reflexivity. }
    split; [exact E|]. rewrite E, checkForArticles_FeedUrl. destruct ld; reflexivity.
  - intros Hf. unfold checkLink at 1; rewrite checkLink_loop_S; unfold checkLink_step at 1; rewrite Hs.
    rewrite Hf; simpl String.eqb; cbv iota beta.
    unfold checkLink; rewrite (checkLink_loop_New 1 moment (set_State ld LinkIsNew)) by reflexivity.
    destruct (checkLink_loop 2 moment (set_State ld LinkIsNew)); reflexivity.
Qed.

(** C3 (as amended): within five minutes of [LastChecked] the refresh
    fetches nothing and raises no error; it leaves every field but
    [Articles] as it was and resets [Articles] to the empty list, so a
    second refresh within the interval changes nothing further. *)
Theorem checkForArticles_rate_limited moment (ld : LinkDetails) :
  time_Sub moment (LastChecked ld) < minCheckDuration ->
  checkForArticles moment ld = (set_Articles ld [], []) /\
  checkForArticles moment (fst (checkForArticles moment ld)) = checkForArticles moment ld.
Proof.
  intros H.
  assert (E : forall l : LinkDetails, time_Sub moment (LastChecked l) < minCheckDuration ->
              checkForArticles moment l = (set_Articles l [], [])).
  { intros l Hl; unfold checkForArticles.
    replace (LastChecked (set_Articles l [])) with (LastChecked l) by (destruct l; reflexivity).
    apply Z.ltb_lt in Hl; rewrite Hl; reflexivity. }
  split; [apply E; exact H|].
  rewrite (E ld H); simpl. rewrite E; [|destruct ld; exact H].
  rewrite set_Articles_twice; reflexivity.
Qed.

(** C4 (as amended): when the feed is fetched with status 200 and the
    first start element of its body is not [rss], [feed] or [RDF], the
    refresh raises no error and keeps [State], [LastError] and
    [LastChecked], but resets [Articles] to the empty list. *)
Theorem checkForArticles_unknown_root moment (ld : LinkDetails) absU status ct body root ring :
  minCheckDuration <= time_Sub moment (LastChecked ld) ->
  forceAbsolute (BaseUrl ld) (FeedUrl ld) = inl absU ->
  Get absU = Resp 200 status ct body ->
  firstStartElement (NewDecoder body) = inl (root, ring) ->
  ~ In (fst root) ["rss"; "feed"; "RDF"] ->
  checkForArticles moment ld = (set_Articles ld [], [absU]).
Proof.
  intros Ht Ha Hg Hf Hr.
  assert (Hp : parseFunctionForFeed root = None).
  { unfold parseFunctionForFeed.
    destruct (String.eqb (fst root) "rss") eqn:E1;
      [apply String.eqb_eq in E1; exfalso; apply Hr; rewrite E1; simpl; auto|].
    destruct (String.eqb (fst root) "feed") eqn:E2;
      [apply String.eqb_eq in E2; exfalso; apply Hr; rewrite E2; simpl; auto|].
    destruct (String.eqb (fst root) "RDF") eqn:E3;
      [apply String.eqb_eq in E3; exfalso; apply Hr; rewrite E3; simpl; auto|].
    reflexivity. }
  unfold checkForArticles.
  replace (LastChecked (set_Articles ld [])) with (LastChecked ld) by (destruct ld; reflexivity).
  replace (time_Sub moment (LastChecked ld) <? minCheckDuration) with false
    by (symmetry; apply Z.ltb_ge; exact Ht).
  unfold makeFeedRequest.
  replace (BaseUrl (set_Articles ld [])) with (BaseUrl ld) by (destruct ld; reflexivity).
  replace (FeedUrl (set_Articles ld [])) with (FeedUrl ld) by (destruct ld; reflexivity).
  rewrite Ha, Hg; simpl. rewrite Hf, Hp. reflexivity.
Qed.

Lemma genericExtractArticle_go_suffix ts e atom accum rv r d :
  genericExtractArticle_go ts e atom accum rv = (r, d) ->
  snd d = e /\ (length (fst d) <= length ts)%nat.
Proof.
  revert accum rv; induction ts as [|t ts IH]; intros accum rv; simpl.
  - intros H; inversion H; subst; simpl; auto.
  - assert (Hrec : forall accum rv, genericExtractArticle_go ts e atom accum rv = (r, d) ->
                   snd d = e /\ (length (fst d) <= S (length ts))%nat).
    { intros a0 r0 H; destruct (IH _ _ H); split; [assumption|lia]. }
    assert (Hstop : forall r', (r', (ts, e)) = (r, d) -> snd d = e /\ (length (fst d) <= S (length ts))%nat).
    { intros r' H; inversion H; subst; simpl; split; [reflexivity|lia]. }
    destruct t as [n attrs|n|s|].
    + destruct (atom && String.eqb n "link"); [|apply Hrec].
      destruct (href_of attrs None); [apply Hrec|apply Hstop].
    + destruct (String.eqb n "item" || String.eqb n "entry"); [apply Hstop|].
      destruct (String.eqb n "title"); [apply Hrec|].
      destruct (String.eqb n "link"); [apply Hrec|].
      destruct (is_date_name n); [|apply Hrec].
      destruct (parseTime accum); [apply Hrec|apply Hstop].
    + apply Hrec.
    + apply Hrec.
Qed.

Lemma decode_stack_app strict pre stk stk' :
  decode_stack strict pre stk = Some stk' ->
  exists ts0, forall r, decode strict (pre ++ r) stk =
    ((ts0 ++ fst (decode strict r stk'))%list, snd (decode strict r stk')).
Proof.
  revert stk; induction pre as [|t pre IH]; intros stk; simpl.
  - intros H; inversion H; subst. exists []; intros r; destruct (decode strict r stk'); reflexivity.
  - destruct (tok_step strict t stk) as [ts res] eqn:Ht; simpl.
    destruct res as [stk1|m]; [|discriminate].
    intros H; destruct (IH stk1 H) as [ts1 H1].
    exists (ts ++ ts1)%list; intros r. rewrite H1. simpl. rewrite <- app_assoc. reflexivity.
Qed.

(** An end tag that does not match the innermost open element stops the
    strict decoder with a syntax error. *)
Lemma decode_mismatched_end pre top stk bad post :
  decode_stack true pre [] = Some (top :: stk) -> bad <> top ->
  exists ts0, NewDecoder (pre ++ REnd bad :: post) =
              (ts0, ErrSyntax ("element <" ++ top ++ "> closed by </" ++ bad ++ ">")).
Proof.
  intros Hs Hb. destruct (decode_stack_app true pre [] (top :: stk) Hs) as [ts0 H].
  exists ts0. unfold NewDecoder. rewrite H. simpl.
  apply String.eqb_neq in Hb. rewrite Hb. simpl. rewrite app_nil_r. reflexivity.
Qed.

Lemma parseTime_try_err formats str err :
  parseTime_try formats str = inr err -> err = MkError ("Could not parse time: " ++ str).
Proof.
  induction formats as [|f fs IH]; simpl; [congruence|].
  destruct (time_Parse f str); [discriminate|exact IH].
Qed.

Lemma genericExtractArticle_go_err ts e atom accum rv err d :
  genericExtractArticle_go ts e atom accum rv = (inr err, d) -> article_error e err.
Proof.
  unfold article_error.
  revert accum rv; induction ts as [|t ts IH]; intros accum rv; simpl.
  - intros H; inversion H; subst; left; reflexivity.
  - destruct t as [n attrs|n|str|].
    + destruct (atom && String.eqb n "link"); [|apply IH].
      destruct (href_of attrs None); [apply IH|].
      intros H; inversion H; subst; right; left; reflexivity.
    + destruct (String.eqb n "item" || String.eqb n "entry"); [discriminate|].
      destruct (String.eqb n "title"); [apply IH|].
      destruct (String.eqb n "link"); [apply IH|].
      destruct (is_date_name n); [|apply IH].
      destruct (parseTime accum) as [tm|err0] eqn:Hp; [apply IH|].
      intros H; inversion H; subst. right; right. exists accum.
      exact (parseTime_try_err _ _ _ Hp).
    + apply IH.
    + apply IH.
Qed.

(** [feedParser] on a stream that ends with an error other than [io.EOF]
    returns an error, and changes only the record's articles. *)
Lemma feedParser_go_stream_error n ts e (link : LinkDetails) :
  e <> ErrEOF -> (length ts < n)%nat ->
  exists err arts, feedParser_go n (ts, e) link = (Some err, set_Articles link arts) /\ article_error e err.
Proof.
  intros He. revert ts link; induction n as [|n IH]; intros ts link Hn; [lia|].
  destruct ts as [|t ts]; simpl.
  - exists e, (Articles link). destruct e; try congruence;
      (split; [destruct link; reflexivity|left; reflexivity]).
  - simpl in Hn. destruct t as [nm a| | |]; try (apply IH; lia).
    destruct (String.eqb nm "item" || String.eqb nm "entry"); [|apply IH; lia].
    unfold genericExtractArticle; simpl.
    destruct (genericExtractArticle_go ts e (String.eqb nm "entry") "" emptyArticle)
      as [[art|err] [ts' e']] eqn:Hg.
    + pose proof (genericExtractArticle_go_suffix _ _ _ _ _ _ _ Hg) as [He' Hl]; simpl in He', Hl; subst e'.
      destruct (IH ts' (set_Articles link (Articles link ++ [art])) ltac:(lia)) as (err & arts & H1 & H2).
      rewrite H1, set_Articles_twice. eauto.
    + exists err, (Articles link); split; [destruct link; reflexivity|].
      eapply genericExtractArticle_go_err; exact Hg.
Qed.

Lemma firstStartElement_go_rest ts e root ring :
  firstStartElement_go ts e = inl (root, ring) -> snd ring = e.
Proof.
  induction ts as [|t ts IH]; simpl; [discriminate|].
  destruct t; try exact IH. intros H; inversion H; reflexivity.
Qed.

(** C5 (as amended): in a feed whose stream has an end tag that does not
    match the innermost open element (such as an item or entry closed by
    an end tag of another name), the strict decoder stops there with a
    syntax error, and a due refresh fails with a permanent error: that
    syntax error, or the error of an item before it that failed to parse.
    The refresh records it ([LinkTransientError], [LastError]), keeps
    [LastChecked], and leaves [Articles] empty: the previous articles are
    discarded. *)
Theorem checkForArticles_mismatched_close moment (ld : LinkDetails) absU status ct
    pre top stk bad post :
  minCheckDuration <= time_Sub moment (LastChecked ld) ->
  forceAbsolute (BaseUrl ld) (FeedUrl ld) = inl absU ->
  Get absU = Resp 200 status ct (pre ++ REnd bad :: post) ->
  recognizedFeedFormat (pre ++ REnd bad :: post) = true ->
  decode_stack true pre [] = Some (top :: stk) -> bad <> top ->
  exists err,
    checkForArticles moment ld = (ErrorOccurred err (set_Articles ld []), [absU]) /\
    IsTransient err = false /\
    article_error (ErrSyntax ("element <" ++ top ++ "> closed by </" ++ bad ++ ">")) err.
Proof.
  intros Ht Ha Hg Hr Hs Hb.
  destruct (decode_mismatched_end pre top stk bad post Hs Hb) as [ts0 Hd].
  unfold recognizedFeedFormat in Hr.
  destruct (firstStartElement (NewDecoder (pre ++ REnd bad :: post))) as [[root ring]|e0] eqn:Hf;
    [|discriminate].
  destruct (parseFunctionForFeed root) as [pfn|] eqn:Hp; [|discriminate].
  apply parseFunctionForFeed_Some in Hp as Hpfn; subst pfn.
  assert (Hring : snd ring = ErrSyntax ("element <" ++ top ++ "> closed by </" ++ bad ++ ">")).
  { rewrite Hd in Hf. unfold firstStartElement in Hf; simpl in Hf.
    apply firstStartElement_go_rest in Hf. exact Hf. }
  destruct ring as [rts re]; simpl in Hring; subst re.
  destruct (feedParser_go_stream_error (S (length rts)) rts
              (ErrSyntax ("element <" ++ top ++ "> closed by </" ++ bad ++ ">")) (set_Articles ld [])
              ltac:(discriminate) ltac:(lia)) as (err & arts & Hfp & Herr).
  exists err. split; [|split; [|exact Herr]].
  - unfold checkForArticles.
    replace (LastChecked (set_Articles ld [])) with (LastChecked ld) by (destruct ld; reflexivity).
    replace (time_Sub moment (LastChecked ld) <? minCheckDuration) with false
      by (symmetry; apply Z.ltb_ge; exact Ht).
    unfold makeFeedRequest.
    replace (BaseUrl (set_Articles ld [])) with (BaseUrl ld) by (destruct ld; reflexivity).
    replace (FeedUrl (set_Articles ld [])) with (FeedUrl ld) by (destruct ld; reflexivity).
    rewrite Ha, Hg. simpl. rewrite Hf, Hp. unfold feedParser; simpl fst. rewrite Hfp.
    destruct ld; reflexivity.
  - destruct Herr as [->|[->|[accum ->]]]; reflexivity.
Qed.

Lemma genericExtractArticle_prefix pre rest e atom accum rv :
  forallb (fun t => negb (is_item_end t)) pre = true ->
  (exists err r, genericExtractArticle_go (pre ++ rest) e atom accum rv = (inr err, r)) \/
  (exists accum' rv', genericExtractArticle_go (pre ++ rest) e atom accum rv =
                      genericExtractArticle_go rest e atom accum' rv').
Proof.
  revert accum rv; induction pre as [|t pre IH]; intros accum rv Hpre; simpl in *.
  - right; eauto.
  - apply andb_prop in Hpre as [Ht Hpre].
    destruct t as [n attrs|n|str|]; simpl in Ht.
    + destruct (atom && String.eqb n "link").
      * destruct (href_of attrs None); [apply IH; exact Hpre|left; eauto].
      * apply IH; exact Hpre.
    + destruct (String.eqb n "item" || String.eqb n "entry"); [discriminate|].
      destruct (String.eqb n "title"); [apply IH; exact Hpre|].
      destruct (String.eqb n "link"); [apply IH; exact Hpre|].
      destruct (is_date_name n); [|apply IH; exact Hpre].
      destruct (parseTime accum); [apply IH; exact Hpre|left; eauto].
    + apply IH; exact Hpre.
    + apply IH; exact Hpre.
Qed.

Lemma genericExtractArticle_middle mid rest e atom accum rv :
  forallb (fun t => negb (is_item_end t) && negb (is_date_end t)) mid = true ->
  (exists err r, genericExtractArticle_go (mid ++ rest) e atom accum rv = (inr err, r)) \/
  (exists accum' rv', Art.PubDate rv' = Art.PubDate rv /\
     genericExtractArticle_go (mid ++ rest) e atom accum rv =
     genericExtractArticle_go rest e atom accum' rv').
Proof.
  revert accum rv; induction mid as [|t mid IH]; intros accum rv Hmid; simpl in *.
  - right; eauto.
  - apply andb_prop in Hmid as [Ht Hmid]. apply andb_prop in Ht as [Ht1 Ht2].
    destruct t as [n attrs|n|str|]; simpl in Ht1, Ht2.
    + destruct (atom && String.eqb n "link").
      * destruct (href_of attrs None) as [v|]; [|left; eauto].
        destruct (IH "" (set_Url rv v) Hmid) as [H|[a [r [Hp H]]]]; [left; exact H|].
        right; exists a, r; split; [exact Hp|exact H].
      * apply IH; exact Hmid.
    + destruct (String.eqb n "item" || String.eqb n "entry"); [discriminate|].
      destruct (String.eqb n "title").
      { destruct (IH accum (set_ATitle rv (Art.Title rv ++ accum)) Hmid) as [H|[a [r [Hp H]]]];
          [left; exact H|right; exists a, r; split; [exact Hp|exact H]]. }
      destruct (String.eqb n "link").
      { destruct (IH accum (if atom then rv else set_Url rv accum) Hmid) as [H|[a [r [Hp H]]]];
          [left; exact H|right; exists a, r; split; [rewrite Hp; destruct atom; reflexivity|exact H]]. }
      destruct (is_date_name n); [discriminate|apply IH; exact Hmid].
    + apply IH; exact Hmid.
    + apply IH; exact Hmid.
Qed.

Lemma parseTime_try_spec formats str :
  (forall t, parseTime_try formats str = inl t <->
     exists k f, nth_error formats k = Some f /\ time_Parse f str = Some t /\
       forall j g, (j < k)%nat -> nth_error formats j = Some g -> time_Parse g str = None) /\
  ((exists err, parseTime_try formats str = inr err) <->
     forall f, In f formats -> time_Parse f str = None).
Proof.
  induction formats as [|f fs [IH1 IH2]]; simpl.
  - split.
    + intros t; split; [congruence|]. intros [k [f [Hk _]]]. destruct k; discriminate.
    + split; [intros _ f []|eauto].
  - destruct (time_Parse f str) as [t0|] eqn:Hf; split.
    + intros t; split.
      * intros H; inversion H; subst. exists 0%nat, f; repeat split; auto.
        intros j g Hj; lia.
      * intros [k [g [Hk [Hg Hlt]]]]. destruct k as [|k]; simpl in Hk.
        -- inversion Hk; subst; congruence.
        -- rewrite (Hlt 0%nat f ltac:(lia) eq_refl) in Hf; discriminate.
    + split; [intros [err H]; discriminate|]. intros H; rewrite (H f (or_introl eq_refl)) in Hf; discriminate.
    + intros t; rewrite IH1; split.
      * intros [k [g [Hk [Hg Hlt]]]]. exists (S k), g; repeat split; auto.
        intros j h Hj Hh. destruct j as [|j]; simpl in Hh.
        -- inversion Hh; subst; exact Hf.
        -- apply (Hlt j); [lia|exact Hh].
      * intros [k [g [Hk [Hg Hlt]]]]. destruct k as [|k]; simpl in Hk.
        -- inversion Hk; subst; congruence.
        -- exists k, g; repeat split; auto. intros j h Hj Hh. apply (Hlt (S j)); [lia|exact Hh].
    + rewrite IH2; split.
      * intros H g [<-|Hg]; [exact Hf|apply H; exact Hg].
      * intros H g Hg; apply H; right; exact Hg.
Qed.

Lemma is_date_name_facts d :
  is_date_name d = true ->
  String.eqb d "link" = false /\ (String.eqb d "item" || String.eqb d "entry") = false /\
  String.eqb d "title" = false.
Proof.
  unfold is_date_name. intros Hd.
  destruct (String.eqb d "link") eqn:E0; [apply String.eqb_eq in E0; subst; discriminate|].
  destruct (String.eqb d "item") eqn:E1; [apply String.eqb_eq in E1; subst; discriminate|].
  destruct (String.eqb d "entry") eqn:E2; [apply String.eqb_eq in E2; subst; discriminate|].
  destruct (String.eqb d "title") eqn:E3; [apply String.eqb_eq in E3; subst; discriminate|].
  auto.
Qed.

(** A date element whose text no layout parses, anywhere in an item
    before the item's end, makes the article fail. *)
Lemma genericExtractArticle_date_fails pre d dattrs str rest e atom accum rv :
  is_date_name d = true ->
  forallb (fun t => negb (is_item_end t)) pre = true ->
  (exists msg, parseTime str = inr msg) ->
  exists err r, genericExtractArticle_go
    ((pre ++ [StartElement d dattrs; CharData str; EndElement d] ++ rest)%list) e atom accum rv = (inr err, r).
Proof.
  intros Hd Hpre [msg Hp].
  destruct (is_date_name_facts d Hd) as (Hlink & Hitem & Htitle).
  destruct (genericExtractArticle_prefix pre ([StartElement d dattrs; CharData str; EndElement d] ++ rest)
              e atom accum rv Hpre) as [H|[acc [rv' H]]]; [exact H|].
  rewrite H; simpl. rewrite Hlink, andb_false_r, Hitem, Htitle, Hd.
  replace (String.append "" str) with str by reflexivity.
  rewrite Hp. eauto.
Qed.

(** C6 (as amended): [parseTime] returns the value of the first layout,
    in the order RFC 822, RFC 822 with numeric zone, RFC 1123, RFC 1123
    with numeric zone, RFC 3339, 2006-1-2, that parses the text, and fails
    when none does; in an item, the publish time is the value of the LAST
    [pubDate]/[updated]/[date] element before the item's end, and any date
    element before the item's end (first, last or in between) whose text
    no layout parses makes the article fail. *)
Theorem genericExtractArticle_publish_time pre d dattrs str mid e rest err0 atom :
  is_date_name d = true ->
  forallb (fun t => negb (is_item_end t)) pre = true ->
  forallb (fun t => negb (is_item_end t) && negb (is_date_end t)) mid = true ->
  (e = "item" \/ e = "entry") ->
  let ts := (pre ++ [StartElement d dattrs; CharData str; EndElement d] ++ mid ++ EndElement e :: rest)%list in
  parseTime_formats = [RFC822; RFC822Z; RFC1123; RFC1123Z; RFC3339; YMD] /\
  (forall t, parseTime str = inl t <->
     exists k f, nth_error parseTime_formats k = Some f /\ time_Parse f str = Some t /\
       forall j g, (j < k)%nat -> nth_error parseTime_formats j = Some g -> time_Parse g str = None) /\
  ((exists err, parseTime str = inr err) <-> forall f, In f parseTime_formats -> time_Parse f str = None) /\
  (forall a r, genericExtractArticle (ts, err0) atom = (inl a, r) -> parseTime str = inl (Art.PubDate a)) /\
  (forall pre' d' dattrs' str' rest',
     is_date_name d' = true -> forallb (fun t => negb (is_item_end t)) pre' = true ->
     (exists msg, parseTime str' = inr msg) ->
     exists err r, genericExtractArticle
       ((pre' ++ [StartElement d' dattrs'; CharData str'; EndElement d'] ++ rest')%list, err0) atom = (inr err, r)).
Proof.
  intros Hd Hpre Hmid He ts.
  destruct (parseTime_try_spec parseTime_formats str) as [P1 P2].
  split; [reflexivity|split; [exact P1|split; [exact P2|split]]].
  2:{ intros pre' d' dattrs' str' rest' Hd' Hpre' Hp'.
      unfold genericExtractArticle; cbn [fst snd].
      apply genericExtractArticle_date_fails; assumption. }
  unfold genericExtractArticle; cbn [fst snd]; unfold ts.
  destruct (is_date_name_facts d Hd) as (Hlink & Hitem & Htitle).
  assert (Hend : (String.eqb e "item" || String.eqb e "entry") = true) by
    (destruct He as [->| ->]; reflexivity).
  destruct (genericExtractArticle_prefix pre
              ([StartElement d dattrs; CharData str; EndElement d] ++ mid ++ EndElement e :: rest)
              err0 atom "" emptyArticle Hpre) as [[err [r H]]|[acc [rv H]]].
  - intros a r' H'; congruence.
  - rewrite H; simpl. rewrite Hlink, andb_false_r, Hitem, Htitle, Hd.
    replace (String.append "" str) with str by reflexivity.
    destruct (parseTime str) as [t|msg] eqn:Hp; [|intros; discriminate].
    intros a r' Ha.
    destruct (genericExtractArticle_middle mid (EndElement e :: rest) err0 atom str (set_PubDate rv t) Hmid)
      as [[err [r H2]]|[acc' [rv' [HP H2]]]]; rewrite H2 in Ha; [discriminate|].
    simpl in Ha; rewrite Hend in Ha. inversion Ha; subst. rewrite HP; reflexivity.
Qed.

Lemma checkForFeedUrl_eq baseUrl link :
  checkForFeedUrl baseUrl link =
  if namedLikeFeedLink link then
    ((if feed_probe_ok baseUrl link then Links.Url link else "", feed_probe_ok baseUrl link),
     snd (makeFeedRequest baseUrl (Links.Url link)))
  else (("", false), []).
Proof.
  unfold checkForFeedUrl, feed_probe_ok.
  destruct (namedLikeFeedLink link); [|reflexivity]; simpl.
  destruct (makeFeedRequest baseUrl (Links.Url link)) as [[[ct body]|e] g]; [|reflexivity].
  destruct (validFeedContentType ct && recognizedFeedFormat body); reflexivity.
Qed.

Lemma probeLinks_first baseUrl pre link post :
  Forall (fun l => namedLikeFeedLink l && feed_probe_ok baseUrl l = false) pre ->
  namedLikeFeedLink link && feed_probe_ok baseUrl link = true ->
  probeLinks baseUrl (pre ++ link :: post) =
  (Some (Links.Url link), flat_map (probe_gets baseUrl) (pre ++ [link])).
Proof.
  intros Hpre Hl; induction Hpre as [|l pre Hl0 Hpre IH]; simpl.
  - unfold probe_gets; rewrite checkForFeedUrl_eq.
    apply andb_prop in Hl as [-> ->]. simpl. rewrite app_nil_r. reflexivity.
  - unfold probe_gets at 1; rewrite checkForFeedUrl_eq.
    destruct (namedLikeFeedLink l) eqn:Hn; simpl in Hl0.
    + rewrite Hl0. rewrite IH. reflexivity.
    + rewrite IH. reflexivity.
Qed.

Lemma flat_map_probe_gets_filter baseUrl links :
  flat_map (probe_gets baseUrl) (List.filter namedLikeFeedLink links) = flat_map (probe_gets baseUrl) links.
Proof.
  induction links as [|l ls IH]; simpl; [reflexivity|].
  destruct (namedLikeFeedLink l) eqn:Hn; simpl; rewrite IH; [reflexivity|].
  unfold probe_gets; rewrite checkForFeedUrl_eq, Hn; reflexivity.
Qed.

Lemma existsb_In_iff {A} (f : A -> bool) l : existsb f l = true <-> exists x, In x l /\ f x = true.
Proof. apply existsb_exists. Qed.

(** C7: discovery probes exactly the links named like feeds (title
    containing "rss", "atom" or "feed", or URL equal to or ending with one
    of the suffixes, both lower-cased), in page order, and returns the URL
    of the first one whose response has status 200, a feed content type
    and a feed root element. *)
Theorem findFeedUrl_first_feed_candidate (ld : LinkDetails) status ct body links err pre link post :
  Get (BaseUrl ld) = Resp 200 status ct body ->
  Links.Extract body = (links, err) -> (err = None \/ links <> []) ->
  links = (pre ++ link :: post)%list ->
  Forall (fun l => namedLikeFeedLink l && feed_probe_ok (BaseUrl ld) l = false) pre ->
  namedLikeFeedLink link && feed_probe_ok (BaseUrl ld) link = true ->
  findFeedUrl ld =
    (inl (Links.Url link),
     BaseUrl ld :: flat_map (probe_gets (BaseUrl ld)) (List.filter namedLikeFeedLink (pre ++ [link]))) /\
  (forall l, probe_gets (BaseUrl ld) l =
     if namedLikeFeedLink l then
       match forceAbsolute (BaseUrl ld) (Links.Url l) with inl u => [u] | inr _ => [] end
     else []) /\
  (forall l, namedLikeFeedLink l = true <->
     (exists h, In h feedHints /\ Contains (ToLower (Links.Title l)) h = true) \/
     (exists sfx, In sfx urlSuffixes /\
        (ToLower (Links.Url l) = sfx \/ HasSuffix (ToLower (Links.Url l)) sfx = true))) /\
  (forall l, feed_probe_ok (BaseUrl ld) l = true <->
     exists absU status' ct' body' root ring,
       forceAbsolute (BaseUrl ld) (Links.Url l) = inl absU /\ Get absU = Resp 200 status' ct' body' /\
       (exists c p, In c ct' /\ In p contentTypes /\ String.prefix p c = true) /\
       firstStartElement (NewDecoder body') = inl (root, ring) /\
       In (fst root) ["rss"; "feed"; "RDF"]).
Proof.
  intros Hg He Herr Hl Hpre Hok.
  split; [|split; [|split]].
  - unfold findFeedUrl. rewrite Hg; simpl. rewrite He.
    assert (E : match err, links with
                | Some e, [] => (inr (MkTransientError ("findFeedUrl extract: " ++ Error e)), [BaseUrl ld])
                | _, _ =>
                    let '(r, gets) := probeLinks (BaseUrl ld) links in
                    (match r with
                     | Some feedUrl => inl feedUrl
                     | None => inr (MkTransientError ("findFeedUrl: No link found in main page for " ++ Title ld))
                     end, BaseUrl ld :: gets)
                end =
                let '(r, gets) := probeLinks (BaseUrl ld) links in
                (match r with
                 | Some feedUrl => inl feedUrl
                 | None => inr (MkTransientError ("findFeedUrl: No link found in main page for " ++ Title ld))
                 end, BaseUrl ld :: gets)).
    { destruct err, links; try reflexivity. destruct Herr as [Herr|Herr]; [discriminate|congruence]. }
    rewrite E, Hl, probeLinks_first by assumption.
    rewrite flat_map_probe_gets_filter; reflexivity.
  - intros l. unfold probe_gets; rewrite checkForFeedUrl_eq.
    destruct (namedLikeFeedLink l); [|reflexivity]. simpl.
    unfold makeFeedRequest. destruct (forceAbsolute (BaseUrl ld) (Links.Url l)); reflexivity.
  - intros l. unfold namedLikeFeedLink.
    rewrite orb_true_iff, !existsb_In_iff.
    split; intros [[x [Hx Hy]]|[x [Hx Hy]]]; [left|right|left|right]; exists x; split; auto.
    + apply orb_true_iff in Hy as [Hy|Hy]; [left; apply String.eqb_eq; exact Hy|right; exact Hy].
    + apply orb_true_iff; destruct Hy as [Hy|Hy]; [left; apply String.eqb_eq; exact Hy|right; exact Hy].
  - intros l. unfold feed_probe_ok, makeFeedRequest.
    destruct (forceAbsolute (BaseUrl ld) (Links.Url l)) as [absU|e] eqn:Ha.
    2:{ split; [discriminate|]. intros [absU [? [? [? [? [? [Hx _]]]]]]]; congruence. }
    destruct (Get absU) as [m|st status' ct' body'] eqn:Hget.
    { split; [discriminate|]. intros [u [? [? [? [? [? [Hx [Hy _]]]]]]]].
      inversion Hx; subst; congruence. }
    destruct (st =? 200) eqn:Hst.
    2:{ split; [discriminate|]. intros [u [s2 [c2 [b2 [? [? [Hx [Hy _]]]]]]]].
        inversion Hx; subst. rewrite Hget in Hy; inversion Hy; subst; discriminate. }
    apply Z.eqb_eq in Hst; subst st.
    unfold validFeedContentType, recognizedFeedFormat.
    rewrite andb_true_iff, existsb_In_iff.
    split.
    + intros [[c [Hc Hp]] Hr].
      apply existsb_In_iff in Hp as [p [Hp Hpc]].
      destruct (firstStartElement (NewDecoder body')) as [[root ring]|e'] eqn:Hf; [|discriminate].
      exists absU, status', ct', body', root, ring; repeat split; auto.
      * exists c, p; auto.
      * unfold parseFunctionForFeed in Hr.
        destruct (String.eqb (fst root) "rss") eqn:E1; [apply String.eqb_eq in E1; rewrite E1; simpl; auto|].
        destruct (String.eqb (fst root) "feed") eqn:E2; [apply String.eqb_eq in E2; rewrite E2; simpl; auto|].
        destruct (String.eqb (fst root) "RDF") eqn:E3; [apply String.eqb_eq in E3; rewrite E3; simpl; auto|].
        discriminate.
    + intros [u [s2 [c2 [b2 [root [ring [Hu [Hgu [[c [p [Hc [Hp Hpc]]]] [Hf Hin]]]]]]]]]].
      inversion Hu; subst u. rewrite Hget in Hgu; inversion Hgu; subst s2 c2 b2.
      split.
      * exists c; split; [exact Hc|]. apply existsb_In_iff; exists p; auto.
      * rewrite Hf. unfold parseFunctionForFeed.
        destruct Hin as [<-|[<-|[<-|[]]]]; reflexivity.
Qed.

Lemma absolutize_PubDates baseUrl arts arts' :
  absolutize baseUrl arts = inl arts' -> map Art.PubDate arts' = map Art.PubDate arts.
Proof.
  revert arts'; induction arts as [|a rest IH]; simpl; intros arts' H.
  - inversion H; reflexivity.
  - destruct (forceAbsolute baseUrl (Art.Url a)); [|discriminate].
    destruct (absolutize baseUrl rest) as [r|e]; [|discriminate].
    inversion H; subst; simpl. rewrite (IH r eq_refl). reflexivity.
Qed.

Lemma nondecreasing_PubDates l l' :
  map Art.PubDate l' = map Art.PubDate l -> nondecreasing l -> nondecreasing l'.
Proof.
  intros Hm H i j a b Hij Ha Hb.
  assert (Ha' : nth_error (map Art.PubDate l) i = Some (Art.PubDate a))
    by (rewrite <- Hm, nth_error_map, Ha; reflexivity).
  assert (Hb' : nth_error (map Art.PubDate l) j = Some (Art.PubDate b))
    by (rewrite <- Hm, nth_error_map, Hb; reflexivity).
  rewrite nth_error_map in Ha', Hb'.
  destruct (nth_error l i) as [a0|] eqn:E1; [|discriminate].
  destruct (nth_error l j) as [b0|] eqn:E2; [|discriminate].
  injection Ha' as Ea; injection Hb' as Eb. rewrite <- Ea, <- Eb. exact (H i j a0 b0 Hij E1 E2).
Qed.

Lemma nondecreasing_short l : (length l <= 1)%nat -> nondecreasing l.
Proof.
  intros Hl i j a b Hij Ha Hb.
  assert (Hj : nth_error l j <> None) by congruence. apply nth_error_Some in Hj. lia.
Qed.

Lemma nondecreasing_nil : nondecreasing [].
Proof. apply nondecreasing_short; simpl; lia. Qed.

Lemma ErrorOccurred_Articles err (ld : LinkDetails) :
  Articles (ErrorOccurred err ld) = Articles ld.
Proof. reflexivity. Qed.

Lemma checkForArticles_set_Articles moment (ld : LinkDetails) arts :
  checkForArticles moment (set_Articles ld arts) = checkForArticles moment ld.
Proof. unfold checkForArticles. rewrite set_Articles_twice. reflexivity. Qed.

Section Sorted.
Hypothesis Hsort : forall l, nondecreasing (sort_Sort l).

Lemma checkForArticles_nondecreasing moment (ld : LinkDetails) :
  nondecreasing (Articles (fst (checkForArticles moment ld))).
Proof.
  unfold checkForArticles.
  destruct (time_Sub moment (LastChecked (set_Articles ld [])) <? minCheckDuration);
    [apply nondecreasing_nil|].
  destruct (makeFeedRequest (BaseUrl (set_Articles ld [])) (FeedUrl (set_Articles ld [])))
    as [[[ct body]|err] gets]; simpl; [|apply nondecreasing_nil].
  destruct (firstStartElement (NewDecoder body)) as [[first ring]|err]; [|apply nondecreasing_nil].
  destruct (parseFunctionForFeed first) as [pfn|]; [|apply nondecreasing_nil].
  destruct (pfn ring first (set_Articles ld [])) as [[err|] link1]; [apply nondecreasing_nil|].
  set (arts := if (1 <? length (Articles link1))%nat then sort_Sort (Articles link1) else Articles link1).
  assert (Hs : nondecreasing arts).
  { unfold arts. destruct (1 <? length (Articles link1))%nat eqn:E; [apply Hsort|].
    apply nondecreasing_short. apply Nat.ltb_ge in E. exact E. }
  destruct (absolutize (BaseUrl link1) arts) as [arts'|err] eqn:Ha; [|apply nondecreasing_nil].
  simpl. eapply nondecreasing_PubDates; [eapply absolutize_PubDates; exact Ha|exact Hs].
Qed.

Lemma checkLink_step_nondecreasing moment (ld : LinkDetails) :
  nondecreasing (Articles ld) -> nondecreasing (Articles (fst (fst (checkLink_step moment ld)))).
Proof.
  intros H. unfold checkLink_step.
  destruct (State ld).
  - destruct (findFeedUrl ld) as [[u|err] gets]; [exact H|].
    destruct (IsTransient err); exact H.
  - exact H.
  - exact H.
  - pose proof (checkForArticles_nondecreasing moment ld) as Hc.
    destruct (checkForArticles moment ld); exact Hc.
  - exact H.
Qed.

Lemma checkLink_loop_nondecreasing fuel moment (ld : LinkDetails) :
  nondecreasing (Articles ld) -> nondecreasing (Articles (fst (checkLink_loop fuel moment ld))).
Proof.
  revert ld; induction fuel as [|f IH]; intros ld H; [exact H|].
  rewrite checkLink_loop_S.
  pose proof (checkLink_step_nondecreasing moment ld H) as H1.
  destruct (checkLink_step moment ld) as [[ld' again] gets]; simpl in H1.
  destruct again; [|exact H1].
  specialize (IH ld' H1). destruct (checkLink_loop f moment ld'); exact IH.
Qed.

End Sorted.

(** C8: when [sort.Sort] sorts by publish time, every refresh leaves an
    articles list whose publish times are non-decreasing by index; the
    list it produces does not depend on the list held before (it is
    replaced wholesale); and [checkLink] keeps the articles of every
    record sorted. *)
Theorem checkForArticles_articles_sorted moment (ld : LinkDetails) :
  (forall l, nondecreasing (sort_Sort l)) ->
  nondecreasing (Articles (fst (checkForArticles moment ld))) /\
  (forall arts, checkForArticles moment (set_Articles ld arts) = checkForArticles moment ld) /\
  (nondecreasing (Articles ld) -> nondecreasing (Articles (fst (checkLink moment ld)))).
Proof.
  intros Hs. split; [|split].
  - apply checkForArticles_nondecreasing; exact Hs.
  - intros arts; apply checkForArticles_set_Articles.
  - apply checkLink_loop_nondecreasing; exact Hs.
Qed.

(* ------------------------------------------------------------------ *)
(** ** Further properties of the engine *)

Lemma checkLink_unfold_New moment (ld : LinkDetails) :
  State ld = LinkIsNew ->
  checkLink moment ld =
  let '(r, gets) := findFeedUrl ld in
  match r with
  | inr err => if IsTransient err then (ErrorOccurred err ld, gets) else (set_State ld LinkNoFeedFound, gets)
  | inl feedUrl =>
      let '(ld', gets') := checkForArticles moment (set_FeedUrl (set_State ld LinkHasFeed) feedUrl) in
      (ld', (gets ++ gets')%list)
  end.
Proof.
  intros Hs. unfold checkLink. rewrite checkLink_loop_S. unfold checkLink_step at 1. rewrite Hs.
  destruct (findFeedUrl ld) as [[u|err] gets]; [|destruct (IsTransient err); reflexivity].
  rewrite checkLink_loop_S. unfold checkLink_step. simpl.
  destruct (checkForArticles moment _); reflexivity.
Qed.

(** Records marked Ignore or NoFeedFound are left as they are by
    [checkLink], which fetches nothing for them. *)
Theorem checkLink_inactive moment (ld : LinkDetails) :
  State ld = LinkIgnore \/ State ld = LinkNoFeedFound -> checkLink moment ld = (ld, []).
Proof.
  intros [Hs|Hs]; unfold checkLink; rewrite checkLink_loop_S; unfold checkLink_step; rewrite Hs; reflexivity.
Qed.

(** Discovery on a New record whose page answers with a status other
    than 200 and below 500 marks the record NoFeedFound (and nothing
    else), after fetching only the page. *)
Theorem checkLink_New_client_error moment (ld : LinkDetails) st status ct body :
  State ld = LinkIsNew -> Get (BaseUrl ld) = Resp st status ct body -> st <> 200 -> st < 500 ->
  checkLink moment ld = (set_State ld LinkNoFeedFound, [BaseUrl ld]).
Proof.
  intros Hs Hg H1 H2. rewrite checkLink_unfold_New by exact Hs.
  unfold findFeedUrl. rewrite Hg.
  replace (st =? 200) with false by (symmetry; apply Z.eqb_neq; exact H1).
  replace (500 <=? st) with false by (symmetry; apply Z.leb_gt; exact H2).
  reflexivity.
Qed.

(** Discovery on a New record whose page cannot be fetched, or answers
    with a status of 500 or more, records a transient error and moves the
    record to TransientError, after fetching only the page. *)
Theorem checkLink_New_unreachable moment (ld : LinkDetails) :
  State ld = LinkIsNew ->
  (exists m, Get (BaseUrl ld) = NetFail m) \/
  (exists st status ct body, Get (BaseUrl ld) = Resp st status ct body /\ 500 <= st) ->
  exists err, checkLink moment ld = (ErrorOccurred err ld, [BaseUrl ld]) /\ IsTransient err = true.
Proof.
  intros Hs Hg. rewrite checkLink_unfold_New by exact Hs. unfold findFeedUrl.
  destruct Hg as [[m Hg]|(st & status & ct & body & Hg & Hst)]; rewrite Hg.
  - eexists; split; reflexivity.
  - replace (st =? 200) with false by (symmetry; apply Z.eqb_neq; lia).
    replace (500 <=? st) with true by (symmetry; apply Z.leb_le; exact Hst).
    eexists; split; reflexivity.
Qed.

(** Discovery on a New record whose page is fetched (status 200) but none
    of whose links is accepted as a feed records a transient error and
    moves the record to TransientError (not NoFeedFound), with the error
    "findFeedUrl: No link found in main page for <Title>", after fetching
    the page and probing the candidates. *)
Theorem checkLink_New_no_feed_link moment (ld : LinkDetails) status ct body links err :
  State ld = LinkIsNew -> Get (BaseUrl ld) = Resp 200 status ct body ->
  Links.Extract body = (links, err) -> (err = None \/ links <> []) ->
  Forall (fun l => namedLikeFeedLink l && feed_probe_ok (BaseUrl ld) l = false) links ->
  checkLink moment ld =
    (ErrorOccurred (MkTransientError ("findFeedUrl: No link found in main page for " ++ Title ld)) ld,
     BaseUrl ld :: flat_map (probe_gets (BaseUrl ld)) links).
Proof.
  intros Hs Hg He Herr Hn. rewrite checkLink_unfold_New by exact Hs.
  unfold findFeedUrl. rewrite Hg. simpl. rewrite He.
  assert (Hp : forall links, Forall (fun l => namedLikeFeedLink l && feed_probe_ok (BaseUrl ld) l = false) links ->
                probeLinks (BaseUrl ld) links = (None, flat_map (probe_gets (BaseUrl ld)) links)).
  { clear. intros links Hn. induction Hn as [|l ls Hl Hls IH]; [reflexivity|]. simpl.
    unfold probe_gets at 1. rewrite checkForFeedUrl_eq.
    destruct (namedLikeFeedLink l); simpl in Hl; [rewrite Hl|]; rewrite IH; reflexivity. }
  specialize (Hp links Hn).
  destruct err as [e|], links as [|l ls]; try (destruct Herr; congruence); rewrite Hp; reflexivity.
Qed.

(** When discovery finds a feed URL, the same [checkLink] call records it
    with state HasFeed and at once refreshes the articles from it. *)
Theorem checkLink_New_found moment (ld : LinkDetails) u gets :
  State ld = LinkIsNew -> findFeedUrl ld = (inl u, gets) ->
  checkLink moment ld =
    (fst (checkForArticles moment (set_FeedUrl (set_State ld LinkHasFeed) u)),
     (gets ++ snd (checkForArticles moment (set_FeedUrl (set_State ld LinkHasFeed) u)))%list).
Proof.
  intros Hs Hf. rewrite checkLink_unfold_New by exact Hs. rewrite Hf.
  destruct (checkForArticles _ _); reflexivity.
Qed.

(** When the refresh is due but the feed cannot be fetched (its URL does
    not resolve, the transport fails, or the status is not 200), the
    record moves to TransientError with that error, its articles are
    emptied and [LastChecked] is kept; a status other than 200 gives the
    permanent error "Bad response: " followed by the status line. *)
Theorem checkForArticles_fetch_failed moment (ld : LinkDetails) :
  minCheckDuration <= time_Sub moment (LastChecked ld) ->
  (forall err, forceAbsolute (BaseUrl ld) (FeedUrl ld) = inr err ->
     checkForArticles moment ld = (ErrorOccurred err (set_Articles ld []), [])) /\
  (forall absU m, forceAbsolute (BaseUrl ld) (FeedUrl ld) = inl absU -> Get absU = NetFail m ->
     checkForArticles moment ld = (ErrorOccurred (ErrNet m) (set_Articles ld []), [absU])) /\
  (forall absU st status ct body, forceAbsolute (BaseUrl ld) (FeedUrl ld) = inl absU ->
     Get absU = Resp st status ct body -> st <> 200 ->
     checkForArticles moment ld =
       (ErrorOccurred (MkError ("Bad response: " ++ status)) (set_Articles ld []), [absU]) /\
     IsTransient (MkError ("Bad response: " ++ status)) = false).
Proof.
  intros Ht.
  assert (Hdue : (time_Sub moment (LastChecked (set_Articles ld [])) <? minCheckDuration) = false)
    by (apply Z.ltb_ge; exact Ht).
  split; [|split].
  - intros err Ha. unfold checkForArticles. rewrite Hdue. unfold makeFeedRequest.
    simpl. rewrite Ha. reflexivity.
  - intros absU m Ha Hg. unfold checkForArticles. rewrite Hdue. unfold makeFeedRequest.
    simpl. rewrite Ha, Hg. reflexivity.
  - intros absU st status ct body Ha Hg Hst. split; [|reflexivity].
    unfold checkForArticles. rewrite Hdue. unfold makeFeedRequest.
    simpl. rewrite Ha, Hg.
    replace (st =? 200) with false by (symmetry; apply Z.eqb_neq; exact Hst). reflexivity.
Qed.

(** A refresh either keeps [LastChecked], or sets it to the moment of the
    refresh, and then it changed neither the state nor the last error. *)
Theorem checkForArticles_LastChecked moment (ld : LinkDetails) :
  let r := fst (checkForArticles moment ld) in
  LastChecked r = LastChecked ld \/
  (LastChecked r = moment /\ State r = State ld /\ LastError r = LastError ld).
Proof.
  unfold checkForArticles.
  destruct (time_Sub moment (LastChecked (set_Articles ld [])) <? minCheckDuration); [left; reflexivity|].
  destruct (makeFeedRequest _ _) as [[[ct body]|err] gets]; [|left; reflexivity].
  destruct (firstStartElement (NewDecoder body)) as [[first ring]|err]; [|left; reflexivity].
  destruct (parseFunctionForFeed first) as [pfn|] eqn:Hp; [|left; reflexivity].
  destruct (parse_feed_only_articles first pfn ring (set_Articles ld []) Hp) as [arts Ha].
  destruct (pfn ring first (set_Articles ld [])) as [[err|] link1]; simpl in Ha; subst link1.
  - left; reflexivity.
  - destruct (absolutize _ _); [right; split; [reflexivity|split; reflexivity]|left; reflexivity].
Qed.

(** [checkLink] never changes a record's base URL, title or read mark. *)
Theorem checkLink_keeps_identity moment (ld : LinkDetails) :
  let r := fst (checkLink moment ld) in
  BaseUrl r = BaseUrl ld /\ Title r = Title ld /\ LastRead r = LastRead ld.
Proof.
  unfold checkLink. generalize 3%nat as fuel. intros fuel. revert ld.
  induction fuel as [|f IH]; intros ld; simpl; [auto|].
  pose proof (checkLink_step_identity moment ld) as (H1 & H2 & H3).
  destruct (checkLink_step moment ld) as [[ld' again] gets]; simpl in *.
  destruct again; [|auto].
  specialize (IH ld'). destruct (checkLink_loop f moment ld'); simpl in *.
  destruct IH as (I1 & I2 & I3). split; [congruence|split; congruence].
Qed.

(** Making article URLs absolute: the loop succeeds exactly when every
    article's URL resolves against the base URL, and then keeps the
    articles' order, titles and publish times; it fails with the error of
    the first article whose URL does not resolve. *)
Theorem absolutize_spec baseUrl arts :
  (forall arts', absolutize baseUrl arts = inl arts' <->
     Forall2 (fun a a' => forceAbsolute baseUrl (Art.Url a) = inl (Art.Url a') /\
                          Art.Title a' = Art.Title a /\ Art.PubDate a' = Art.PubDate a) arts arts') /\
  (forall err, absolutize baseUrl arts = inr err <->
     exists pre a post, arts = (pre ++ a :: post)%list /\
       Forall (fun b => exists u, forceAbsolute baseUrl (Art.Url b) = inl u) pre /\
       forceAbsolute baseUrl (Art.Url a) = inr err).
Proof.
  split.
  - induction arts as [|a rest IH]; intros arts'; simpl.
    + split; [intros H; inversion H; constructor|intros H; inversion H; reflexivity].
    + split.
      * destruct (forceAbsolute baseUrl (Art.Url a)) as [u|e] eqn:Hf; [|discriminate].
        destruct (absolutize baseUrl rest) as [rest'|e] eqn:Hr; [|discriminate].
        intros H; inversion H; subst. constructor.
        -- destruct a; simpl; auto.
        -- apply IH; reflexivity.
      * intros H; inversion H as [|x a' l l' [Hf [Ht Hp]] Hl]; subst.
        rewrite Hf. apply IH in Hl. rewrite Hl. f_equal. f_equal.
        destruct a, a'; simpl in *; subst; reflexivity.
  - induction arts as [|a rest IH]; intros err; simpl.
    + split; [discriminate|intros (pre & a & post & H & _); destruct pre; discriminate].
    + destruct (forceAbsolute baseUrl (Art.Url a)) as [u|e] eqn:Hf.
      * destruct (absolutize baseUrl rest) as [rest'|e] eqn:Hr; split.
        -- discriminate.
        -- intros (pre & b & post & H & Hpre & Hb). destruct pre as [|c pre]; simpl in H.
           ++ injection H as -> ->. congruence.
           ++ injection H as -> ->. inversion Hpre; subst.
              assert (Hc : @inl (list Article) error rest' = inr err)
                by (apply IH; exists pre, b, post; auto).
              discriminate.
        -- intros H; injection H as ->. destruct (proj1 (IH err) eq_refl) as (pre & b & post & -> & Hpre & Hb).
           exists (a :: pre), b, post; split; [reflexivity|split; [constructor; eauto|exact Hb]].
        -- intros (pre & b & post & H & Hpre & Hb). destruct pre as [|c pre]; simpl in H.
           ++ injection H as -> ->. congruence.
           ++ injection H as -> ->. apply IH. exists pre, b, post; inversion Hpre; auto.
      * split.
        -- intros H; injection H as ->. exists [], a, rest; auto.
        -- intros (pre & b & post & H & Hpre & Hb). destruct pre as [|c pre]; simpl in H.
           ++ injection H as -> ->. congruence.
           ++ injection H as -> ->. inversion Hpre as [|x l [u Hu] Hl]; subst. congruence.
Qed.

End Engine.

(* ------------------------------------------------------------------ *)
(** ** Reading state and the link store *)

Lemma MarkAllAsRead_fold arts z :
  fold_left (fun latest art => if latest <? Art.PubDate art then Art.PubDate art else latest) arts z =
  fold_left Z.max (map Art.PubDate arts) z.
Proof.
  revert z; induction arts as [|a rest IH]; intros z; simpl; [reflexivity|].
  rewrite IH. f_equal. destruct (Z.ltb_spec z (Art.PubDate a)); lia.
Qed.

(** C9: [UnreadArticles] keeps, in order, exactly the articles published
    strictly after [LastRead]; [MarkAllAsRead] changes only [LastRead],
    which becomes the greatest of its old value, the zero time and the
    publish times of the articles. With [LastRead = T] (not before the zero
    time) and publish times [T-1, T, T+1, T+2], the unread articles are the
    last two and [MarkAllAsRead] sets [LastRead] to [T+2]. *)
Theorem UnreadArticles_MarkAllAsRead (ld : LinkDetails) :
  UnreadArticles ld = List.filter (fun art => LastRead ld <? Art.PubDate art) (Articles ld) /\
  (forall a, In a (UnreadArticles ld) <-> In a (Articles ld) /\ LastRead ld < Art.PubDate a) /\
  MarkAllAsRead ld = set_LastRead ld (LastRead (MarkAllAsRead ld)) /\
  LastRead (MarkAllAsRead ld) =
    Z.max (LastRead ld) (fold_left Z.max (map Art.PubDate (Articles ld)) zeroTime) /\
  (forall T u1 u2 u3 u4 t1 t2 t3 t4, zeroTime <= T ->
     let ld' := set_Articles (set_LastRead ld T)
                  [Art.mkArticle u1 t1 (T - 1); Art.mkArticle u2 t2 T;
                   Art.mkArticle u3 t3 (T + 1); Art.mkArticle u4 t4 (T + 2)] in
     UnreadArticles ld' = [Art.mkArticle u3 t3 (T + 1); Art.mkArticle u4 t4 (T + 2)] /\
     LastRead (MarkAllAsRead ld') = T + 2).
Proof.
  split; [reflexivity|split; [|split; [|split]]].
  - intros a. unfold UnreadArticles. rewrite filter_In, Z.ltb_lt. reflexivity.
  - unfold MarkAllAsRead. destruct (_ <? _); [reflexivity|].
    destruct ld; reflexivity.
  - unfold MarkAllAsRead. rewrite MarkAllAsRead_fold.
    destruct (Z.ltb_spec (LastRead ld) (fold_left Z.max (map Art.PubDate (Articles ld)) zeroTime));
      simpl; lia.
  - intros T u1 u2 u3 u4 t1 t2 t3 t4 HT ld'. split.
    + unfold UnreadArticles, ld'. simpl.
      replace (T <? T - 1) with false by (symmetry; apply Z.ltb_ge; lia).
      replace (T <? T) with false by (symmetry; apply Z.ltb_ge; lia).
      replace (T <? T + 1) with true by (symmetry; apply Z.ltb_lt; lia).
      replace (T <? T + 2) with true by (symmetry; apply Z.ltb_lt; lia).
      reflexivity.
    + unfold MarkAllAsRead, ld'. rewrite MarkAllAsRead_fold. simpl.
      replace (Z.max (Z.max (Z.max (Z.max zeroTime (T - 1)) T) (T + 1)) (T + 2)) with (T + 2) by lia.
      replace (T <? T + 2) with true by (symmetry; apply Z.ltb_lt; lia).
      reflexivity.
Qed.

(** C10: for a URL already in the store, [InterestedIn] leaves the map,
    every record (title included) and the allocator as they were and only
    appends the URL to [noted]; so a second call with the same URL makes
    [CheckForUpdates] send the same record twice. *)
Theorem InterestedIn_existing (ls : LinkStore) url title l :
  Links ls !! url = Some l ->
  Links (InterestedIn url title ls) = Links ls /\
  heap (InterestedIn url title ls) = heap ls /\
  next_loc (InterestedIn url title ls) = next_loc ls /\
  noted (InterestedIn url title ls) = (noted ls ++ [url])%list /\
  (forall title2,
     CheckForUpdates_sends (InterestedIn url title2 (InterestedIn url title ls)) =
     (CheckForUpdates_sends ls ++ [Some l; Some l])%list).
Proof.
  intros Hl.
  assert (E : forall t, InterestedIn url t ls = mkStore (Links ls) (heap ls) (next_loc ls) (noted ls ++ [url])%list)
    by (intros t; unfold InterestedIn; rewrite Hl; reflexivity).
  rewrite !E; simpl.
  split; [reflexivity|split; [reflexivity|split; [reflexivity|split; [reflexivity|]]]].
  intros title2. unfold InterestedIn, CheckForUpdates_sends; simpl. rewrite Hl; simpl.
  rewrite map_app, map_app; simpl. rewrite Hl, <- app_assoc. reflexivity.
Qed.

(* ------------------------------------------------------------------ *)
(** ** Go's insertion sort orders by publish time *)

Definition pub_le (a b : Article) : Prop := Art.PubDate a <= Art.PubDate b.

Lemma insertArticle_HdRel a b l :
  pub_le b a -> HdRel pub_le b l -> HdRel pub_le b (insertArticle a l).
Proof.
  intros Hba Hl. destruct l as [|c l]; simpl; [constructor; exact Hba|].
  destruct (Art.PubDate a <? Art.PubDate c); constructor; [exact Hba|].
  inversion Hl; assumption.
Qed.

Lemma insertArticle_Sorted a l : Sorted pub_le l -> Sorted pub_le (insertArticle a l).
Proof.
  induction l as [|b l IH]; simpl; intros H; [repeat constructor|].
  destruct (Z.ltb_spec (Art.PubDate a) (Art.PubDate b)).
  - constructor; [exact H|]. constructor. unfold pub_le; lia.
  - inversion H; subst. constructor; [apply IH; assumption|].
    apply insertArticle_HdRel; [unfold pub_le; lia|assumption].
Qed.

Lemma insertionSort_Sorted l : Sorted pub_le (insertionSort l).
Proof.
  unfold insertionSort.
  assert (G : forall acc, Sorted pub_le acc ->
            Sorted pub_le (fold_left (fun acc a => insertArticle a acc) l acc)).
  { induction l as [|a l IH]; simpl; intros acc H; [exact H|].
    apply IH, insertArticle_Sorted, H. }
  apply G; constructor.
Qed.

Lemma StronglySorted_nondecreasing l : StronglySorted pub_le l -> nondecreasing l.
Proof.
  induction l as [|x l IH]; intros H i j a b Hij Ha Hb.
  - destruct i; discriminate.
  - inversion H as [|? ? Hs Hall]; subst.
    destruct i as [|i], j as [|j]; try lia; simpl in Ha, Hb.
    + injection Ha as <-. apply nth_error_In in Hb.
      rewrite List.Forall_forall in Hall. exact (Hall b Hb).
    + apply (IH Hs i j); auto; lia.
Qed.

Lemma insertionSort_nondecreasing l : nondecreasing (insertionSort l).
Proof.
  apply StronglySorted_nondecreasing, Sorted_StronglySorted; [|apply insertionSort_Sorted].
  intros a b c; unfold pub_le; lia.
Qed.

(* ------------------------------------------------------------------ *)
(** ** Examples on the concrete site *)



(** C2 at a record in [LinkTransientError] with a recorded feed URL. *)
Lemma checkLink_TransientError_recovers_witness :
  State (set_State (Site.withFeed "/feed.xml" 1000000000000) LinkTransientError) = LinkTransientError /\
  checkLink string (@inl string error) Site.ResolveReference (@id string) Site.Get insertionSort Site.now
    (set_State (Site.withFeed "/feed.xml" 1000000000000) LinkTransientError) =
  checkForArticles string (@inl string error) Site.ResolveReference (@id string) Site.Get insertionSort
    Site.now (Site.withFeed "/feed.xml" 1000000000000) /\
  FeedUrl (fst (checkLink string (@inl string error) Site.ResolveReference (@id string) Site.Get
                  insertionSort Site.now
                  (set_State (Site.withFeed "/feed.xml" 1000000000000) LinkTransientError))) = "/feed.xml".
Proof.
  pose proof (checkLink_TransientError_recovers string (@inl string error) Site.ResolveReference
                (@id string) Site.Get insertionSort Site.now
                (set_State (Site.withFeed "/feed.xml" 1000000000000) LinkTransientError)
                ltac:(reflexivity)) as [H1 _].
  destruct (H1 ltac:(intros He; vm_compute in He; discriminate He)) as [E F].
  split; [reflexivity|split; [exact E|exact F]].
Defined.

(** C3 at a record checked one second ago. *)
Lemma checkForArticles_rate_limited_witness :
  time_Sub Site.now (LastChecked (Site.withFeed "/feed.xml" 1000000000)) < minCheckDuration /\
  checkForArticles string (@inl string error) Site.ResolveReference (@id string) Site.Get insertionSort
    Site.now (Site.withFeed "/feed.xml" 1000000000) =
  (set_Articles (Site.withFeed "/feed.xml" 1000000000) [], []).
Proof.
  assert (H0 : time_Sub Site.now (LastChecked (Site.withFeed "/feed.xml" 1000000000)) < minCheckDuration)
    by (vm_compute; reflexivity).
  split; [exact H0|].
  exact (proj1 (checkForArticles_rate_limited string (@inl string error) Site.ResolveReference
                  (@id string) Site.Get insertionSort Site.now (Site.withFeed "/feed.xml" 1000000000) H0)).
Defined.

(** C3 fails as stated: a refresh within the interval empties the articles. *)
Lemma checkForArticles_rate_limited_counterexample :
  Articles (Site.withFeed "/feed.xml" 1000000000) = [Site.oldArticle] /\
  Articles (fst (checkForArticles string (@inl string error) Site.ResolveReference (@id string) Site.Get
                   insertionSort Site.now (Site.withFeed "/feed.xml" 1000000000))) = [].
Proof. vm_compute. split; reflexivity. Qed.

(** C4 at a feed URL that now serves an HTML page. *)
Lemma checkForArticles_unknown_root_witness :
  Site.Get "https://x/moved.xml" = Resp 200 "200 OK" ["text/xml"] Site.htmlbody /\
  checkForArticles string (@inl string error) Site.ResolveReference (@id string) Site.Get insertionSort
    Site.now (Site.withFeed "/moved.xml" 1000000000000) =
  (set_Articles (Site.withFeed "/moved.xml" 1000000000000) [], ["https://x/moved.xml"]).
Proof.
  split; [reflexivity|].
  eapply (checkForArticles_unknown_root string (@inl string error) Site.ResolveReference (@id string)
            Site.Get insertionSort Site.now (Site.withFeed "/moved.xml" 1000000000000)
            "https://x/moved.xml" "200 OK" ["text/xml"] Site.htmlbody).
  - vm_compute. discriminate.
  - vm_compute. reflexivity.
  - vm_compute. reflexivity.
  - vm_compute. reflexivity.
  - vm_compute. intros [H|[H|[H|[]]]]; discriminate H.
Defined.

(** C4 fails as stated: the refresh empties the articles. *)
Lemma checkForArticles_unknown_root_counterexample :
  Articles (Site.withFeed "/moved.xml" 1000000000000) = [Site.oldArticle] /\
  Articles (fst (checkForArticles string (@inl string error) Site.ResolveReference (@id string) Site.Get
                   insertionSort Site.now (Site.withFeed "/moved.xml" 1000000000000))) = [].
Proof. vm_compute. split; reflexivity. Qed.

(** C5 at a feed whose channel has metadata and a well-formed item
    before an item closed by [</channel>]. *)
Lemma checkForArticles_mismatched_close_witness :
  Site.Get "https://x/bad.xml" =
    Resp 200 "200 OK" ["text/xml"] (Site.badfeed_pre ++ REnd "channel" :: [REnd "channel"; REnd "rss"])%list /\
  exists err,
    checkForArticles string (@inl string error) Site.ResolveReference (@id string) Site.Get insertionSort
      Site.now (Site.withFeed "/bad.xml" 1000000000000) =
    (ErrorOccurred err (set_Articles (Site.withFeed "/bad.xml" 1000000000000) []), ["https://x/bad.xml"]) /\
    IsTransient err = false /\
    article_error (ErrSyntax ("element <" ++ "item" ++ "> closed by </" ++ "channel" ++ ">")) err.
Proof.
  assert (Hg : Site.Get "https://x/bad.xml" =
    Resp 200 "200 OK" ["text/xml"] (Site.badfeed_pre ++ REnd "channel" :: [REnd "channel"; REnd "rss"])%list)
    by reflexivity.
  split; [exact Hg|].
  apply (checkForArticles_mismatched_close string (@inl string error) Site.ResolveReference
           (@id string) Site.Get insertionSort Site.now (Site.withFeed "/bad.xml" 1000000000000)
           "https://x/bad.xml" "200 OK" ["text/xml"] Site.badfeed_pre "item" ["channel"; "rss"] "channel"
           [REnd "channel"; REnd "rss"]).
  - vm_compute. discriminate.
  - vm_compute. reflexivity.
  - exact Hg.
  - vm_compute. reflexivity.
  - vm_compute. reflexivity.
  - discriminate.
Defined.

(** C5 fails as stated: the prior articles are not kept. *)
Lemma checkForArticles_mismatched_close_counterexample :
  Articles (Site.withFeed "/bad.xml" 1000000000000) = [Site.oldArticle] /\
  Articles (fst (checkForArticles string (@inl string error) Site.ResolveReference (@id string) Site.Get
                   insertionSort Site.now (Site.withFeed "/bad.xml" 1000000000000))) = [] /\
  State (fst (checkForArticles string (@inl string error) Site.ResolveReference (@id string) Site.Get
                insertionSort Site.now (Site.withFeed "/bad.xml" 1000000000000))) = LinkTransientError.
Proof. vm_compute. split; [reflexivity|split; reflexivity]. Qed.

(** C6 at an item with a title and a [pubDate], and at an item whose
    first date element does not parse although a later one does. *)
Lemma genericExtractArticle_publish_time_witness :
  parseTime "2020-1-1" = inl 1577836800000000000 /\
  (forall a r,
     genericExtractArticle
       ([StartElement "title" []; CharData "T"; EndElement "title";
         StartElement "pubDate" []; CharData "2020-1-1"; EndElement "pubDate"; EndElement "item"], ErrEOF)
       false = (inl a, r) ->
     parseTime "2020-1-1" = inl (Art.PubDate a)) /\
  exists err r,
    genericExtractArticle
      (([StartElement "title" []; CharData "T"; EndElement "title"] ++
        [StartElement "pubDate" []; CharData "soon"; EndElement "pubDate"] ++
        [StartElement "updated" []; CharData "2021-1-1"; EndElement "updated"; EndElement "item"])%list, ErrEOF)
      false = (inr err, r).
Proof.
  pose proof (genericExtractArticle_publish_time
                [StartElement "title" []; CharData "T"; EndElement "title"] "pubDate" [] "2020-1-1"
                [] "item" [] ErrEOF false
                ltac:(reflexivity) ltac:(reflexivity) ltac:(reflexivity) ltac:(left; reflexivity))
    as (_ & _ & _ & H4 & H5).
  split; [vm_compute; reflexivity|split; [exact H4|]].
  apply (H5 [StartElement "title" []; CharData "T"; EndElement "title"] "pubDate" [] "soon"
            [StartElement "updated" []; CharData "2021-1-1"; EndElement "updated"; EndElement "item"]).
  - reflexivity.
  - reflexivity.
  - eexists; vm_compute; reflexivity.
Defined.

(** C6 fails as stated: with a [pubDate] and then an [updated] element,
    the publish time comes from the second one. *)
Lemma genericExtractArticle_first_date_counterexample :
  match genericExtractArticle
          ([StartElement "pubDate" []; CharData "2020-1-1"; EndElement "pubDate";
            StartElement "updated" []; CharData "2021-1-1"; EndElement "updated";
            EndElement "item"], ErrEOF) false with
  | (inl a, _) => Art.PubDate a = 1609459200000000000
  | (inr _, _) => False
  end /\
  parseTime "2020-1-1" = inl 1577836800000000000.
Proof. vm_compute. split; reflexivity. Qed.

(** C7 on the site's main page: the link titled "RSS Feed" is probed and accepted. *)
Lemma findFeedUrl_first_feed_candidate_witness :
  Links.Extract Site.page =
    ([Links.mkLink "RSS Feed" "/feed.xml"; Links.mkLink "About" "/about"], None) /\
  findFeedUrl string (@inl string error) Site.ResolveReference (@id string) Site.Get
    (newLinkDetails "https://x" "X") = (inl "/feed.xml", ["https://x"; "https://x/feed.xml"]).
Proof.
  assert (He : Links.Extract Site.page =
    ([Links.mkLink "RSS Feed" "/feed.xml"; Links.mkLink "About" "/about"], None))
    by (vm_compute; reflexivity).
  pose proof (findFeedUrl_first_feed_candidate string (@inl string error) Site.ResolveReference
                (@id string) Site.Get (newLinkDetails "https://x" "X") "200 OK" ["text/html"] Site.page
                [Links.mkLink "RSS Feed" "/feed.xml"; Links.mkLink "About" "/about"] None
                [] (Links.mkLink "RSS Feed" "/feed.xml") [Links.mkLink "About" "/about"]
                ltac:(reflexivity) He ltac:(left; reflexivity) ltac:(reflexivity)
                ltac:(constructor) ltac:(vm_compute; reflexivity)) as [H1 _].
  split; [exact He|]. rewrite H1. vm_compute. reflexivity.
Defined.

(** C8 on the site's feed, whose items come latest first: the refresh
    stores them oldest first. *)
Lemma checkForArticles_articles_sorted_witness :
  map Art.PubDate (Articles (fst (checkForArticles string (@inl string error) Site.ResolveReference
      (@id string) Site.Get insertionSort Site.now (Site.withFeed "/feed.xml" 1000000000000)))) =
    [1577836800000000000; 1609459200000000000] /\
  nondecreasing (Articles (fst (checkForArticles string (@inl string error) Site.ResolveReference
      (@id string) Site.Get insertionSort Site.now (Site.withFeed "/feed.xml" 1000000000000)))).
Proof.
  pose proof (checkForArticles_articles_sorted string (@inl string error) Site.ResolveReference
                (@id string) Site.Get insertionSort Site.now (Site.withFeed "/feed.xml" 1000000000000)
                insertionSort_nondecreasing) as [H1 _].
  split; [vm_compute; reflexivity|exact H1].
Defined.

(** C9 fails as stated: when every article was published before
    [LastRead], [MarkAllAsRead] keeps [LastRead]. *)
Lemma MarkAllAsRead_latest_counterexample :
  map Art.PubDate (Articles (set_LastRead (Site.withFeed "/feed.xml" 0) Site.now)) =
    [1600000000000000000] /\
  LastRead (MarkAllAsRead (set_LastRead (Site.withFeed "/feed.xml" 0) Site.now)) = Site.now.
Proof. vm_compute. split; reflexivity. Qed.

(** C10 on a store where the site was noted once, noted twice more. *)
Lemma InterestedIn_existing_witness :
  Links (InterestedIn "https://x" "X" newStore) !! "https://x" = Some 1%positive /\
  heap (InterestedIn "https://x" "Other" (InterestedIn "https://x" "X" newStore)) =
    heap (InterestedIn "https://x" "X" newStore) /\
  CheckForUpdates_sends (InterestedIn "https://x" "Again"
    (InterestedIn "https://x" "Other" (InterestedIn "https://x" "X" newStore))) =
    [Some 1%positive; Some 1%positive; Some 1%positive].
Proof.
  assert (Hl : Links (InterestedIn "https://x" "X" newStore) !! "https://x" = Some 1%positive)
    by (vm_compute; reflexivity).
  pose proof (InterestedIn_existing (InterestedIn "https://x" "X" newStore) "https://x" "Other"
                1%positive Hl) as (_ & H2 & _ & _ & H5).
  split; [exact Hl|split; [exact H2|]].
  rewrite H5. vm_compute. reflexivity.
Defined.

(* ------------------------------------------------------------------ *)
(** ** Further properties of the store and of reading state *)

Lemma InterestedIn_store_ok url title ls :
  store_ok ls -> store_ok (InterestedIn url title ls).
Proof.
  intros (Hl & Hh & Hn). unfold InterestedIn, store_ok.
  destruct (Links ls !! url) as [l0|] eqn:Hu; simpl.
  - split; [exact Hl|split; [exact Hh|]].
    apply Forall_app; split; [exact Hn|constructor; [simpl; rewrite Hu; discriminate|constructor]].
  - split; [|split].
    + intros u l H. destruct (decide (u = url)) as [->|Hne].
      * rewrite lookup_insert_eq in H. injection H as <-.
        exists (newLinkDetails url title). rewrite lookup_insert_eq. split; reflexivity.
      * rewrite lookup_insert_ne in H by congruence.
        destruct (Hl u l H) as (ld & Hld & Hb). exists ld.
        rewrite lookup_insert_ne; [split; assumption|].
        intros Heq. specialize (Hh _ _ Hld). rewrite <- Heq in Hh. lia.
    + intros l ld H. destruct (decide (l = next_loc ls)) as [->|Hne]; [lia|].
      rewrite lookup_insert_ne in H by congruence. specialize (Hh _ _ H). lia.
    + apply Forall_app; split.
      * eapply Forall_impl; [exact Hn|]. intros u Hu'.
        destruct (decide (u = url)) as [->|Hne]; [rewrite lookup_insert_eq; discriminate|].
        rewrite lookup_insert_ne by congruence. exact Hu'.
      * constructor; [rewrite lookup_insert_eq; discriminate|constructor].
Qed.

Lemma newStore_ok : store_ok newStore.
Proof.
  unfold store_ok, newStore; simpl. split; [|split].
  - intros u l H. rewrite lookup_empty in H. discriminate.
  - intros l ld H. rewrite lookup_empty in H. discriminate.
  - constructor.
Qed.

Lemma interested_from_ok calls ls :
  store_ok ls -> store_ok (fold_left (fun ls c => InterestedIn (fst c) (snd c) ls) calls ls).
Proof.
  revert ls; induction calls as [|c cs IH]; intros ls H; simpl; [exact H|].
  apply IH, InterestedIn_store_ok, H.
Qed.

Lemma interested_from_noted calls ls :
  noted (fold_left (fun ls c => InterestedIn (fst c) (snd c) ls) calls ls) = (noted ls ++ map fst calls)%list.
Proof.
  revert ls; induction calls as [|c cs IH]; intros ls; simpl; [rewrite app_nil_r; reflexivity|].
  rewrite IH. unfold InterestedIn. destruct (Links ls !! fst c); simpl; rewrite <- app_assoc; reflexivity.
Qed.

(** A store built by its documented life cycle ([newStore], then
    [InterestedIn] for each link) notes the URLs in call order; each noted
    URL maps to a record whose [BaseUrl] is that URL, two URLs never share
    a record, and [CheckForUpdates] never sends a nil record. *)
Theorem interested_all_consistent calls :
  let ls := interested_all calls in
  noted ls = map fst calls /\
  (forall u, In u (noted ls) ->
     exists l ld, Links ls !! u = Some l /\ heap ls !! l = Some ld /\ BaseUrl ld = u) /\
  (forall u1 u2 l, Links ls !! u1 = Some l -> Links ls !! u2 = Some l -> u1 = u2) /\
  Forall (fun s => s <> None) (CheckForUpdates_sends ls).
Proof.
  intros ls.
  pose proof (interested_from_ok calls newStore newStore_ok) as (Hl & Hh & Hn).
  fold (interested_all calls) in Hl, Hh, Hn. fold ls in Hl, Hh, Hn.
  split; [|split; [|split]].
  - unfold ls, interested_all. rewrite interested_from_noted. reflexivity.
  - intros u Hu. rewrite List.Forall_forall in Hn. specialize (Hn u Hu).
    destruct (Links ls !! u) as [l|] eqn:E; [|congruence].
    destruct (Hl u l E) as (ld & H1 & H2). exists l, ld; auto.
  - intros u1 u2 l H1 H2.
    destruct (Hl _ _ H1) as (ld1 & E1 & B1). destruct (Hl _ _ H2) as (ld2 & E2 & B2).
    congruence.
  - unfold CheckForUpdates_sends. apply Forall_map. exact Hn.
Qed.

Lemma InterestedIn_keeps url title ls u l ld :
  store_ok ls -> Links ls !! u = Some l -> heap ls !! l = Some ld ->
  Links (InterestedIn url title ls) !! u = Some l /\ heap (InterestedIn url title ls) !! l = Some ld.
Proof.
  intros (_ & Hh & _) Hu Hl. unfold InterestedIn.
  destruct (Links ls !! url) as [l0|] eqn:E; simpl; [split; assumption|].
  assert (Hne : url <> u) by congruence.
  assert (Hlt := Hh _ _ Hl).
  rewrite lookup_insert_ne by exact Hne. rewrite lookup_insert_ne by (intros Heq; rewrite Heq in Hlt; lia).
  split; assumption.
Qed.

Lemma InterestedIn_absent url title ls u :
  url <> u -> Links ls !! u = None -> Links (InterestedIn url title ls) !! u = None.
Proof.
  intros Hne Hu. unfold InterestedIn.
  destruct (Links ls !! url); simpl; [exact Hu|].
  rewrite lookup_insert_ne by exact Hne. exact Hu.
Qed.

Lemma interested_from_keeps calls ls u l ld :
  store_ok ls -> Links ls !! u = Some l -> heap ls !! l = Some ld ->
  let ls' := fold_left (fun ls c => InterestedIn (fst c) (snd c) ls) calls ls in
  Links ls' !! u = Some l /\ heap ls' !! l = Some ld.
Proof.
  revert ls; induction calls as [|c cs IH]; intros ls Hok Hu Hl; simpl; [split; assumption|].
  destruct (InterestedIn_keeps (fst c) (snd c) ls u l ld Hok Hu Hl) as [Hu' Hl'].
  apply IH; [apply InterestedIn_store_ok, Hok|exact Hu'|exact Hl'].
Qed.

Lemma interested_from_absent calls ls u :
  ~ In u (map fst calls) -> Links ls !! u = None ->
  Links (fold_left (fun ls c => InterestedIn (fst c) (snd c) ls) calls ls) !! u = None.
Proof.
  revert ls; induction calls as [|c cs IH]; intros ls Hn Hu; simpl; [exact Hu|].
  simpl in Hn. apply IH; [tauto|]. apply InterestedIn_absent; [tauto|exact Hu].
Qed.

(** The record of a URL is the one made by the first [InterestedIn] call
    for it: state New, no articles, and the title of that call; later
    calls with other titles do not change it. *)
Theorem interested_all_first_title calls pre u t post :
  calls = (pre ++ (u, t) :: post)%list -> ~ In u (map fst pre) ->
  exists l, Links (interested_all calls) !! u = Some l /\
            heap (interested_all calls) !! l = Some (newLinkDetails u t).
Proof.
  intros -> Hpre. unfold interested_all. rewrite fold_left_app. simpl.
  set (ls0 := fold_left (fun ls c => InterestedIn (fst c) (snd c) ls) pre newStore).
  assert (Hok : store_ok ls0) by apply interested_from_ok, newStore_ok.
  assert (Hn : Links ls0 !! u = None).
  { apply interested_from_absent; [exact Hpre|]. unfold newStore; simpl. apply lookup_empty. }
  exists (next_loc ls0).
  apply interested_from_keeps.
  - apply InterestedIn_store_ok, Hok.
  - unfold InterestedIn. rewrite Hn. simpl. apply lookup_insert_eq.
  - unfold InterestedIn. rewrite Hn. simpl. apply lookup_insert_eq.
Qed.

(** After [MarkAllAsRead] no article is unread, and marking again changes
    nothing. *)
Theorem MarkAllAsRead_no_unread (ld : LinkDetails) :
  UnreadArticles (MarkAllAsRead ld) = [] /\ MarkAllAsRead (MarkAllAsRead ld) = MarkAllAsRead ld.
Proof.
  assert (Hge : forall arts z, z <= fold_left Z.max (map Art.PubDate arts) z /\
                  Forall (fun a => Art.PubDate a <= fold_left Z.max (map Art.PubDate arts) z) arts).
  { induction arts as [|a r IH]; intros z; simpl; [split; [lia|constructor]|].
    destruct (IH (Z.max z (Art.PubDate a))) as [H1 H2]. split; [lia|constructor; [lia|exact H2]]. }
  set (m := fold_left Z.max (map Art.PubDate (Articles ld)) zeroTime).
  assert (HL : LastRead (MarkAllAsRead ld) = Z.max (LastRead ld) m).
  { unfold MarkAllAsRead. rewrite MarkAllAsRead_fold. fold m.
    destruct (Z.ltb_spec (LastRead ld) m); simpl; lia. }
  assert (HA : Articles (MarkAllAsRead ld) = Articles ld).
  { unfold MarkAllAsRead. destruct (_ <? _); reflexivity. }
  destruct (Hge (Articles ld) zeroTime) as [_ Hall]. fold m in Hall.
  split.
  - assert (Hf : forall M arts, Forall (fun a => Art.PubDate a <= M) arts ->
              List.filter (fun art => M <? Art.PubDate art) arts = []).
    { intros M arts H. induction H as [|a r Ha Hr IH]; simpl; [reflexivity|].
      replace (M <? Art.PubDate a) with false by (symmetry; apply Z.ltb_ge; exact Ha).
      exact IH. }
    unfold UnreadArticles. rewrite HA, HL. apply Hf.
    eapply Forall_impl; [exact Hall|]. intros a Ha. simpl in Ha. lia.
  - unfold MarkAllAsRead at 1. rewrite MarkAllAsRead_fold, HA, HL. fold m.
    pose proof (Z.le_max_r (LastRead ld) m) as Hm.
    replace (Z.max (LastRead ld) m <? m) with false by (symmetry; apply Z.ltb_ge; lia).
    reflexivity.
Qed.

(* ------------------------------------------------------------------ *)
(** ** Further properties of feed detection and parsing *)

Lemma firstStartElement_prefix pre n a post e :
  Forall (fun t => is_start t = false) pre ->
  firstStartElement ((pre ++ StartElement n a :: post)%list, e) = inl ((n, a), (post, e)) /\
  firstStartElement (pre, e) = inr (MkError "No start element found.").
Proof.
  intros H. unfold firstStartElement; simpl.
  induction H as [|t pre Ht Hpre IH]; simpl; [split; reflexivity|].
  destruct t; simpl in Ht; try discriminate; exact IH.
Qed.

(** [firstStartElement] returns the first start tag of the stream and
    leaves the decoder just after it; a stream without a start tag gives
    the error "No start element found.", whatever error ended the stream. *)
Theorem firstStartElement_first pre n a post e :
  Forall (fun t => is_start t = false) pre ->
  firstStartElement ((pre ++ StartElement n a :: post)%list, e) = inl ((n, a), (post, e)) /\
  firstStartElement (pre, e) = inr (MkError "No start element found.").
Proof. apply firstStartElement_prefix. Qed.

Lemma decode_outside_prefix pre r :
  Forall (fun t => t = ROther \/ exists s, t = RChar s) pre ->
  decode true (pre ++ r) [] =
  let '(ts, e) := decode true r [] in ((map outside_token pre ++ ts)%list, e).
Proof.
  intros H. induction H as [|t pre Ht Hpre IH]; simpl.
  - destruct (decode true r []); reflexivity.
  - destruct Ht as [->|[s ->]]; simpl; rewrite IH; destruct (decode true r []); reflexivity.
Qed.

(** Whether a body is taken for a feed is decided by its first element
    alone: when only text or comments come before it, the body is a feed
    exactly when that element is [rss], [feed] or [RDF], whatever follows
    it, malformed or not. *)
Theorem recognizedFeedFormat_first_element pre root attrs post :
  Forall (fun t => t = ROther \/ exists s, t = RChar s) pre ->
  recognizedFeedFormat (pre ++ RStart root attrs :: post) =
  String.eqb root "rss" || String.eqb root "feed" || String.eqb root "RDF".
Proof.
  intros H. unfold recognizedFeedFormat, NewDecoder.
  rewrite decode_outside_prefix by exact H. simpl.
  destruct (decode true post [root]) as [ts e]. simpl.
  assert (Hs : Forall (fun t => is_start t = false) (map outside_token pre)).
  { apply Forall_map. eapply Forall_impl; [exact H|]. intros t [->|[s ->]]; reflexivity. }
  destruct (firstStartElement_prefix (map outside_token pre) root attrs ts e Hs) as [E _].
  rewrite E. unfold parseFunctionForFeed. simpl.
  destruct (String.eqb root "rss"), (String.eqb root "feed"), (String.eqb root "RDF"); reflexivity.
Qed.

Lemma str_app_cons x (a b : string) : (String x a ++ b) = String x (a ++ b).
Proof. reflexivity. Qed.

Lemma str_app_assoc (a b c : string) : ((a ++ b) ++ c) = (a ++ (b ++ c)).
Proof. induction a as [|x a IH]; [reflexivity|]. rewrite !str_app_cons, IH. reflexivity. Qed.

Lemma str_app_nil_r (a : string) : (a ++ "") = a.
Proof. induction a as [|x a IH]; [reflexivity|]. rewrite str_app_cons, IH. reflexivity. Qed.

Lemma concat_cons (s : string) ss : String.concat "" (s :: ss) = (s ++ String.concat "" ss).
Proof. destruct ss; simpl; [rewrite str_app_nil_r|]; reflexivity. Qed.

Lemma str_app_nil_l (a : string) : ("" ++ a) = a.
Proof. reflexivity. Qed.

Lemma prefix_app_iff (p s : string) : String.prefix p s = true <-> exists q, s = (p ++ q).
Proof.
  revert s; induction p as [|x p IH]; intros s.
  - split; [intros _; exists s; reflexivity|intros _; destruct s; reflexivity].
  - destruct s as [|y s]; simpl.
    + split; [discriminate|intros [q Hq]; discriminate].
    + destruct (ascii_dec x y) as [<-|Hxy].
      * rewrite IH. split; intros [q Hq]; exists q.
        -- rewrite str_app_cons, Hq; reflexivity.
        -- rewrite str_app_cons in Hq; injection Hq; auto.
      * split; [discriminate|intros [q Hq]; rewrite str_app_cons in Hq; congruence].
Qed.

Lemma Contains_iff (s sub : string) :
  Contains s sub = true <-> exists p q, s = (p ++ sub ++ q).
Proof.
  induction s as [|c s IH]; cbn [Contains].
  - rewrite orb_false_r, prefix_app_iff. split.
    + intros [q Hq]; exists "", q; exact Hq.
    + intros [p [q Hpq]]. destruct p; [exists q; exact Hpq|discriminate].
  - rewrite orb_true_iff, prefix_app_iff, IH. split.
    + intros [[q Hq]|[p [q Hpq]]].
      * exists "", q; exact Hq.
      * exists (String c p), q; rewrite str_app_cons, <- Hpq; reflexivity.
    + intros [p [q Hpq]]. destruct p as [|d p].
      * left; exists q; exact Hpq.
      * right; rewrite str_app_cons in Hpq; injection Hpq as -> Hs; exists p, q; exact Hs.
Qed.

Lemma substring_0_length (s : string) : substring 0 (String.length s) s = s.
Proof. induction s as [|c s IH]; simpl; [reflexivity|rewrite IH; reflexivity]. Qed.

Lemma length_str_app (a b : string) : String.length (a ++ b) = (String.length a + String.length b)%nat.
Proof. induction a as [|c a IH]; simpl; [reflexivity|rewrite IH; reflexivity]. Qed.

Lemma substring_app_length (p s : string) :
  substring (String.length p) (String.length s) (p ++ s) = s.
Proof.
  induction p as [|c p IH]; [apply substring_0_length|].
  rewrite str_app_cons. simpl. exact IH.
Qed.

Lemma substring_split (s : string) k :
  (k <= String.length s)%nat ->
  exists p, String.length p = k /\ s = (p ++ substring k (String.length s - k) s).
Proof.
  revert k; induction s as [|c s IH]; intros k Hk; simpl in *.
  - exists ""; split; [simpl; lia|]. replace k with 0%nat by lia. reflexivity.
  - destruct k as [|k].
    + exists ""; split; [reflexivity|]. simpl. rewrite substring_0_length; reflexivity.
    + destruct (IH k ltac:(lia)) as [p [Hp Hs]]. exists (String c p); split; [simpl; lia|].
      rewrite str_app_cons. cbn [substring Nat.sub String.length]. rewrite <- Hs. reflexivity.
Qed.

Lemma HasSuffix_iff (s suffix : string) :
  HasSuffix s suffix = true <-> exists p, s = (p ++ suffix).
Proof.
  unfold HasSuffix. rewrite andb_true_iff, Nat.leb_le, String.eqb_eq. split.
  - intros [Hle Hsub].
    destruct (substring_split s (String.length s - String.length suffix) ltac:(lia)) as [p [_ Hs]].
    replace (String.length s - (String.length s - String.length suffix))%nat
      with (String.length suffix) in Hs by lia.
    rewrite Hsub in Hs. exists p; exact Hs.
  - intros [p ->]. rewrite length_str_app. split; [lia|].
    replace (String.length p + String.length suffix - String.length suffix)%nat
      with (String.length p) by lia.
    apply substring_app_length.
Qed.

(** A link is probed as a feed candidate exactly when its lower-cased
    title contains "rss", "atom" or "feed", or its lower-cased URL ends
    with one of the feed suffixes ("atom.xml", "rss.xml", "feed.xml",
    "feed=rss2", "feed=atom", "feed=rss", "feed"). *)
Theorem namedLikeFeedLink_iff (link : Links.Link) :
  namedLikeFeedLink link = true <->
  (exists h p q, In h feedHints /\ ToLower (Links.Title link) = (p ++ h ++ q)) \/
  (exists sfx p, In sfx urlSuffixes /\ ToLower (Links.Url link) = (p ++ sfx)).
Proof.
  unfold namedLikeFeedLink. rewrite orb_true_iff, !existsb_exists. split.
  - intros [[h [Hin Hc]]|[sfx [Hin Hc]]].
    + left. apply Contains_iff in Hc as [p [q Hpq]]. exists h, p, q; auto.
    + right. apply orb_true_iff in Hc as [Hc|Hc].
      * apply String.eqb_eq in Hc. exists sfx, ""; auto.
      * apply HasSuffix_iff in Hc as [p Hp]. exists sfx, p; auto.
  - intros [[h [p [q [Hin Hc]]]]|[sfx [p [Hin Hc]]]].
    + left. exists h; split; [exact Hin|]. apply Contains_iff; eauto.
    + right. exists sfx; split; [exact Hin|]. apply orb_true_iff; right. apply HasSuffix_iff; eauto.
Qed.

(** A response is taken for a feed by its content type exactly when one
    of its [Content-Type] values starts with "text/xml", "text/plain",
    "application/xml", "application/rss+xml" or "application/atom+xml"
    (parameters such as "; charset=utf-8" may follow). *)
Theorem validFeedContentType_iff ct :
  validFeedContentType ct = true <->
  exists c pref rest, In c ct /\ In pref contentTypes /\ c = (pref ++ rest).
Proof.
  unfold validFeedContentType. rewrite existsb_exists. split.
  - intros [c [Hc Hp]]. apply existsb_exists in Hp as [pref [Hpref Hp]].
    apply prefix_app_iff in Hp as [rest Hr]. exists c, pref, rest; auto.
  - intros [c [pref [rest [Hc [Hpref ->]]]]]. exists (pref ++ rest); split; [exact Hc|].
    apply existsb_exists. exists pref; split; [exact Hpref|]. apply prefix_app_iff; eauto.
Qed.

Lemma genericExtractArticle_keeps_title mid rest e atom accum rv :
  forallb (fun t => negb (is_item_end t) && negb (is_title_end t)) mid = true ->
  (exists err r, genericExtractArticle_go (mid ++ rest) e atom accum rv = (inr err, r)) \/
  (exists accum' rv', Art.Title rv' = Art.Title rv /\
     genericExtractArticle_go (mid ++ rest) e atom accum rv =
     genericExtractArticle_go rest e atom accum' rv').
Proof.
  revert accum rv; induction mid as [|t mid IH]; intros accum rv Hmid; simpl in *.
  - right; eauto.
  - apply andb_prop in Hmid as [Ht Hmid]. apply andb_prop in Ht as [Ht1 Ht2].
    destruct t as [n attrs|n|str|]; simpl in Ht1, Ht2.
    + destruct (atom && String.eqb n "link").
      * destruct (href_of attrs None) as [v|]; [|left; eauto].
        destruct (IH "" (set_Url rv v) Hmid) as [H|[a [r [Hp H]]]]; [left; exact H|].
        right; exists a, r; split; [rewrite Hp; destruct rv; reflexivity|exact H].
      * apply IH; exact Hmid.
    + destruct (String.eqb n "item" || String.eqb n "entry"); [discriminate|].
      destruct (String.eqb n "title"); [discriminate|].
      destruct (String.eqb n "link").
      { destruct (IH accum (if atom then rv else set_Url rv accum) Hmid) as [H|[a [r [Hp H]]]];
          [left; exact H|right; exists a, r; split; [rewrite Hp; destruct atom, rv; reflexivity|exact H]]. }
      destruct (is_date_name n).
      * destruct (parseTime accum) as [tm|err]; [|left; eauto].
        destruct (IH accum (set_PubDate rv tm) Hmid) as [H|[a [r [Hp H]]]]; [left; exact H|].
        right; exists a, r; split; [rewrite Hp; destruct rv; reflexivity|exact H].
      * apply IH; exact Hmid.
    + apply IH; exact Hmid.
    + apply IH; exact Hmid.
Qed.

Lemma genericExtractArticle_go_segments (segs : list (list token + list Attr * string)) rest e atom accum rv :
  Forall (fun sg => match sg with
                    | inl mid => forallb (fun t => negb (is_item_end t) && negb (is_title_end t)) mid = true
                    | inr _ => True
                    end) segs ->
  (exists err r, genericExtractArticle_go
     ((flat_map (fun sg => match sg with
                           | inl mid => mid
                           | inr (attrs, t) => [StartElement "title" attrs; CharData t; EndElement "title"]
                           end) segs ++ rest)%list) e atom accum rv = (inr err, r)) \/
  (exists accum' rv', Art.Title rv' = (Art.Title rv ++
       String.concat "" (flat_map (fun sg => match sg with inl _ => [] | inr (_, t) => [t] end) segs)) /\
     genericExtractArticle_go
       ((flat_map (fun sg => match sg with
                             | inl mid => mid
                             | inr (attrs, t) => [StartElement "title" attrs; CharData t; EndElement "title"]
                             end) segs ++ rest)%list) e atom accum rv =
     genericExtractArticle_go rest e atom accum' rv').
Proof.
  intros H; revert accum rv; induction H as [|sg segs Hsg Hs IH]; intros accum rv.
  - right; exists accum, rv; split; [simpl; rewrite str_app_nil_r; reflexivity|reflexivity].
  - destruct sg as [mid|[attrs t]]; cbn [flat_map]; rewrite <- app_assoc.
    + destruct (genericExtractArticle_keeps_title mid
                  ((flat_map (fun sg => match sg with
                               | inl mid => mid
                               | inr (attrs, t) => [StartElement "title" attrs; CharData t; EndElement "title"]
                               end) segs ++ rest)%list) e atom accum rv Hsg)
        as [Hl|[acc [rv' [Ht Heq]]]]; [left; exact Hl|].
      rewrite Heq. destruct (IH acc rv') as [Hl|[acc' [rv'' [Ht' Heq']]]]; [left; exact Hl|].
      right; exists acc', rv''; split; [rewrite Ht', Ht; reflexivity|exact Heq'].
    + destruct (IH t (set_ATitle rv (Art.Title rv ++ t))) as [Hl|[acc' [rv'' [Ht' Heq']]]].
      * left. simpl. rewrite andb_false_r, str_app_nil_l. exact Hl.
      * right; exists acc', rv''; split.
        -- rewrite Ht'. cbn [flat_map app]. rewrite concat_cons. destruct rv; cbn [Art.Title set_ATitle]. apply str_app_assoc.
        -- simpl. rewrite andb_false_r, str_app_nil_l. exact Heq'.
Qed.

(** The title of an article is the concatenation, in document order, of
    the texts of all the item's [title] elements: between them the item
    may hold any other elements (links, dates, nested markup) as long as
    they close no [title] and no item; when the parse succeeds, it stops
    right after the item's end tag. *)
Theorem genericExtractArticle_titles (segs : list (list token + list Attr * string)) (rest : list token)
    (e : error) (atom : bool) (a : Article) (r : decoder) :
  Forall (fun sg => match sg with
                    | inl mid => forallb (fun t => negb (is_item_end t) && negb (is_title_end t)) mid = true
                    | inr _ => True
                    end) segs ->
  genericExtractArticle
    ((flat_map (fun sg => match sg with
                          | inl mid => mid
                          | inr (attrs, t) => [StartElement "title" attrs; CharData t; EndElement "title"]
                          end) segs ++ EndElement (if atom then "entry" else "item") :: rest)%list, e) atom =
  (inl a, r) ->
  Art.Title a = String.concat "" (flat_map (fun sg => match sg with inl _ => [] | inr (_, t) => [t] end) segs) /\
  r = (rest, e).
Proof.
  intros Hs. unfold genericExtractArticle; simpl fst; simpl snd.
  destruct (genericExtractArticle_go_segments segs (EndElement (if atom then "entry" else "item") :: rest)
              e atom "" emptyArticle Hs) as [[err [r' Hl]]|[acc [rv' [Ht Heq]]]].
  - rewrite Hl; discriminate.
  - rewrite Heq. destruct atom; simpl; intros H; inversion H; subst; (split; [exact Ht|reflexivity]).
Qed.

Lemma feedParser_go_fuel n m ts e (link : LinkDetails) :
  (length ts < n)%nat -> (length ts < m)%nat ->
  feedParser_go n (ts, e) link = feedParser_go m (ts, e) link.
Proof.
  revert m ts link; induction n as [|n IH]; intros m ts link Hn Hm; [lia|].
  destruct m as [|m]; [lia|]. destruct ts as [|t ts]; simpl; [reflexivity|].
  simpl in Hn, Hm.
  destruct t as [nm a| | |]; try (apply IH; lia).
  destruct (String.eqb nm "item" || String.eqb nm "entry"); [|apply IH; lia].
  unfold genericExtractArticle; simpl.
  destruct (genericExtractArticle_go ts e (String.eqb nm "entry") "" emptyArticle)
    as [[art|err] [ts' e']] eqn:Hg; [|reflexivity].
  apply genericExtractArticle_go_suffix in Hg as [He Hl]; simpl in He, Hl; subst e'.
  apply IH; lia.
Qed.

Lemma Articles_set_Articles (ld : LinkDetails) a : Articles (set_Articles ld a) = a.
Proof. destruct ld; reflexivity. Qed.

Lemma feedParser_go_skip skip r n e (link : LinkDetails) :
  forallb (fun t => negb (is_item_start t)) skip = true ->
  (length skip <= n)%nat ->
  feedParser_go n ((skip ++ r)%list, e) link = feedParser_go (n - length skip) (r, e) link.
Proof.
  revert n; induction skip as [|t skip IH]; intros n Hs Hn; simpl in *.
  - rewrite Nat.sub_0_r; reflexivity.
  - destruct n as [|n]; [lia|]. apply andb_prop in Hs as [Ht Hs]. simpl.
    destruct t as [nm a| | |]; try (apply IH; [exact Hs|lia]).
    simpl in Ht. destruct (String.eqb nm "item" || String.eqb nm "entry"); [discriminate|].
    apply IH; [exact Hs|lia].
Qed.

Lemma feedParser_go_items (items : list (list token * string * list Attr * list token * Article)) n ts e
    (link : LinkDetails) :
  Forall (fun '(skip, nm, attrs, body, art) =>
            forallb (fun t => negb (is_item_start t)) skip = true /\ (nm = "item" \/ nm = "entry") /\
            forall rest, genericExtractArticle ((body ++ rest)%list, e) (String.eqb nm "entry")
                         = (inl art, (rest, e))) items ->
  (length (flat_map (fun '(skip, nm, attrs, body, _) => (skip ++ StartElement nm attrs :: body)%list) items ++ ts)
     < n)%nat ->
  exists m, (length ts < m)%nat /\
  feedParser_go n
    ((flat_map (fun '(skip, nm, attrs, body, _) => (skip ++ StartElement nm attrs :: body)%list) items ++ ts)%list, e)
    link =
  feedParser_go m (ts, e) (set_Articles link ((Articles link ++ map (fun '(_, _, _, _, art) => art) items)%list)).
Proof.
  intros H; revert n link; induction H as [|[[[[skip nm] attrs] body] art] items [Hs [Hn Hb]] Hi IH];
    intros n link Hlen; simpl in *.
  - exists n; split; [exact Hlen|]. rewrite app_nil_r. destruct link; reflexivity.
  - rewrite ?length_app in Hlen; simpl in Hlen; rewrite ?length_app in Hlen; simpl in Hlen.
    rewrite <- !app_assoc, feedParser_go_skip by (first [exact Hs | lia]).
    destruct (n - length skip)%nat as [|k] eqn:Hk; [lia|]. simpl.
    replace (String.eqb nm "item" || String.eqb nm "entry") with true
      by (destruct Hn as [-> | ->]; reflexivity).
    rewrite Hb.
    destruct (IH k (set_Articles link (Articles link ++ [art])%list)) as [m [Hm Heq]].
    { rewrite length_app in *. lia. }
    exists m; split; [exact Hm|]. rewrite Heq, set_Articles_twice, Articles_set_Articles, <- app_assoc.
    reflexivity.
Qed.

(** [feedParser] reads the items and entries of a feed in document order:
    whatever precedes an item (channel metadata, other elements, text)
    is skipped as long as it opens no item or entry, the item's start tag
    may carry any attributes, and each item whose parse succeeds appends
    its article to the record's articles, after those already there; the
    parser then goes on with the rest of the stream and leaves the
    record's other fields alone. *)
Theorem feedParser_items (items : list (list token * string * list Attr * list token * Article)) ts e root
    (link : LinkDetails) :
  Forall (fun '(skip, nm, attrs, body, art) =>
            forallb (fun t => negb (is_item_start t)) skip = true /\ (nm = "item" \/ nm = "entry") /\
            forall rest, genericExtractArticle ((body ++ rest)%list, e) (String.eqb nm "entry")
                         = (inl art, (rest, e))) items ->
  feedParser
    ((flat_map (fun '(skip, nm, attrs, body, _) => (skip ++ StartElement nm attrs :: body)%list) items ++ ts)%list, e)
    root link =
  feedParser (ts, e) root (set_Articles link ((Articles link ++ map (fun '(_, _, _, _, art) => art) items)%list)).
Proof.
  intros H. unfold feedParser; simpl fst.
  destruct (feedParser_go_items items
              (S (length (flat_map (fun '(skip, nm, attrs, body, _) => (skip ++ StartElement nm attrs :: body)%list)
                                   items ++ ts))) ts e link H ltac:(lia)) as [m [Hm Heq]].
  rewrite Heq. apply feedParser_go_fuel; lia.
Qed.

Lemma anchorLoop_depth ts d d' rest (lnk : Links.Link) :
  Links.anchor_depth ts d = Some d' ->
  Links.anchorLoop (ts ++ rest) d lnk =
  Links.anchorLoop rest d' (Links.mkLink (Links.Title lnk ++ Links.anchor_text ts) (Links.Url lnk)).
Proof.
  revert d lnk; induction ts as [|[ty dat ats] ts IH]; intros d lnk Hd; simpl in *.
  - inversion Hd; subst. rewrite str_app_nil_r. destruct lnk; reflexivity.
  - destruct ty; simpl in *.
    + rewrite (IH d _ Hd). simpl. rewrite str_app_assoc. reflexivity.
    + apply IH; exact Hd.
    + destruct (d - 1 <? 0); [discriminate|]. apply IH; exact Hd.
    + apply IH; exact Hd.
    + apply IH; exact Hd.
Qed.

(** [checkForAnchor] on an [a] start tag with an [href] attribute reads
    the anchor's body up to the end tag that closes it, counting nested
    start and end tags (whatever their names): the link's title is the
    concatenation of the body's text, its URL is the [href] value, and
    reading resumes after that end tag; a body with no text gives the
    link the [title] attribute's value, or drops the link when there is
    no such attribute. A body the stream ends in before it closes gives
    the error "EOF while parsing anchor body." and keeps only the links
    found before. *)
Theorem checkForAnchor_body (startTok : Links.Token) (href : Attr) inner endTok rest links :
  Links.Data startTok = "a" -> Links.findAttr (Links.Attr_ startTok) "href" = Some href ->
  (Links.anchor_depth inner 0 = Some 0 -> Links.Type_ endTok = Links.EndTagToken ->
   Links.checkForAnchor startTok (inner ++ endTok :: rest) links =
   if String.eqb (Links.anchor_text inner) "" then
     match Links.findAttr (Links.Attr_ startTok) "title" with
     | Some t => (((links ++ [Links.mkLink (attr_value t) (attr_value href)])%list, None), rest)
     | None => ((links, None), rest)
     end
   else (((links ++ [Links.mkLink (Links.anchor_text inner) (attr_value href)])%list, None), rest)) /\
  (forall d, Links.anchor_depth inner 0 = Some d ->
   Links.checkForAnchor startTok inner links =
   ((links, Some (ErrFmt "EOF while parsing anchor body.")), [])).
Proof.
  intros Ha Hh. unfold Links.checkForAnchor. rewrite Ha, Hh. simpl negb. cbv iota.
  split.
  - intros Hd He. rewrite (anchorLoop_depth inner 0 0 (endTok :: rest) _ Hd). simpl.
    rewrite He. simpl. reflexivity.
  - intros d Hd. rewrite <- (app_nil_r inner), (anchorLoop_depth inner 0 d [] _ Hd). reflexivity.
Qed.

Lemma Extract_go_link_tags fuel ts rv :
  (length ts < fuel)%nat ->
  forallb (fun tok => negb (String.eqb (Links.Data tok) "a" && Links.is_StartTagToken (Links.Type_ tok))) ts = true ->
  Links.Extract_go fuel ts rv =
  ((rv ++ flat_map (fun tok =>
      match Links.Type_ tok with
      | Links.StartTagToken | Links.SelfClosingTagToken =>
          if String.eqb (Links.Data tok) "link" then
            match Links.findAttr (Links.Attr_ tok) "href" with
            | Some h =>
                [Links.mkLink (match Links.findAttr (Links.Attr_ tok) "type" with
                               | Some ty => attr_value ty
                               | None => "Some Link"
                               end) (attr_value h)]
            | None => []
            end
          else []
      | _ => []
      end) ts)%list, None).
Proof.
  revert fuel rv; induction ts as [|[ty dat ats] ts IH]; intros fuel rv Hf Hts.
  - destruct fuel as [|f]; [simpl in Hf; lia|]. simpl. rewrite app_nil_r. reflexivity.
  - destruct fuel as [|f]; [simpl in Hf; lia|]. simpl in Hf, Hts.
    apply andb_prop in Hts as [Ht Hts].
    assert (Hrec : forall rv', Links.Extract_go f ts rv' = ((rv' ++ _)%list, None))
      by (intros rv'; apply IH; [lia|exact Hts]).
    destruct ty; cbn [Links.Extract_go Links.Type_ flat_map];
      try (rewrite Hrec; reflexivity);
      unfold Links.checkTag, Links.checkForLINK; cbn [Links.Data Links.Type_ Links.Attr_ Links.is_StartTagToken] in *.
    + rewrite andb_true_r in Ht. destruct (String.eqb dat "a"); [discriminate|]. simpl.
      destruct (String.eqb dat "link"); simpl; [|rewrite Hrec; reflexivity].
      destruct (Links.findAttr ats "href"); [|rewrite Hrec; reflexivity].
      destruct (Links.findAttr ats "type"); simpl; rewrite Hrec, <- app_assoc; reflexivity.
    + rewrite andb_false_r.
      destruct (String.eqb dat "link"); simpl; [|rewrite Hrec; reflexivity].
      destruct (Links.findAttr ats "href"); [|rewrite Hrec; reflexivity].
      destruct (Links.findAttr ats "type"); simpl; rewrite Hrec, <- app_assoc; reflexivity.
Qed.

(** On a page with no [a] start tag, [links.Extract] returns, in document
    order and with no error, one link for each [link] tag (start or
    empty-element, whatever the case of its name) that has an [href]
    attribute: its URL is the [href] value, possibly empty, and its title
    the [type] attribute's value, or "Some Link" when there is none. *)
Theorem Extract_link_tags (body : list rawtok) :
  forallb (fun tok => negb (String.eqb (Links.Data tok) "a" && Links.is_StartTagToken (Links.Type_ tok)))
    (Links.NewTokenizer body) = true ->
  Links.Extract body =
  (flat_map (fun tok =>
      match Links.Type_ tok with
      | Links.StartTagToken | Links.SelfClosingTagToken =>
          if String.eqb (Links.Data tok) "link" then
            match Links.findAttr (Links.Attr_ tok) "href" with
            | Some h =>
                [Links.mkLink (match Links.findAttr (Links.Attr_ tok) "type" with
                               | Some ty => attr_value ty
                               | None => "Some Link"
                               end) (attr_value h)]
            | None => []
            end
          else []
      | _ => []
      end) (Links.NewTokenizer body), None).
Proof.
  intros H. unfold Links.Extract. rewrite Extract_go_link_tags by (first [lia | exact H]). reflexivity.
Qed.

Lemma list_delete_insert (l : list Article) i x : delete i (<[i := x]> l) = delete i l.
Proof.
  revert i; induction l as [|a l IH]; intros i; [reflexivity|].
  destruct i as [|i]; simpl; [reflexivity|]. f_equal. apply IH.
Qed.

Lemma insert_Permutation (l : list Article) i a b :
  l !! i = Some a -> b :: l ≡ₚ a :: <[i := b]> l.
Proof.
  intros Hl.
  assert (Hi : (i < length l)%nat) by (apply lookup_lt_Some with a; exact Hl).
  pose proof (delete_Permutation (<[i := b]> l) i b (list_lookup_insert_eq l i b Hi)) as Hb.
  rewrite list_delete_insert in Hb.
  transitivity (b :: a :: delete i l); [apply perm_skip, delete_Permutation, Hl|].
  transitivity (a :: b :: delete i l); [apply perm_swap|].
  apply perm_skip. symmetry. exact Hb.
Qed.

(** [ArticleArray.Swap] on indices in range exchanges the two articles,
    leaves every other position alone and keeps the same articles (the
    result is a permutation), as [sort.Sort] relies on. *)
Theorem ArticleArray_Swap_spec aa i j :
  (i < length aa)%nat -> (j < length aa)%nat ->
  exists aa', ArticleArray_Swap aa i j = Some aa' /\ aa ≡ₚ aa' /\
    aa' !! i = aa !! j /\ aa' !! j = aa !! i /\
    (forall k, k <> i -> k <> j -> aa' !! k = aa !! k).
Proof.
  intros Hi Hj.
  destruct (lookup_lt_is_Some_2 aa i Hi) as [ai Hai].
  destruct (lookup_lt_is_Some_2 aa j Hj) as [aj Haj].
  unfold ArticleArray_Swap. rewrite Hai, Haj.
  set (m := <[i := aj]> aa).
  assert (Hm : m !! j = Some aj).
  { unfold m. destruct (decide (i = j)) as [->|Hne].
    - apply list_lookup_insert_eq; exact Hj.
    - rewrite list_lookup_insert_ne by exact Hne. exact Haj. }
  assert (Hmi : m !! i = Some aj) by (apply list_lookup_insert_eq; exact Hi).
  eexists; split; [reflexivity|]. split; [|split; [|split]].
  - apply (Permutation_cons_inv (a := aj)).
    rewrite (insert_Permutation aa i ai aj Hai). fold m.
    apply (insert_Permutation m j aj ai Hm).
  - destruct (decide (i = j)) as [->|Hne].
    + rewrite list_lookup_insert_eq by (unfold m; rewrite length_insert; exact Hj). congruence.
    + rewrite list_lookup_insert_ne by congruence. rewrite Hmi. congruence.
  - rewrite list_lookup_insert_eq by (unfold m; rewrite length_insert; exact Hj). congruence.
  - intros k Hki Hkj. rewrite list_lookup_insert_ne by congruence.
    unfold m. rewrite list_lookup_insert_ne by congruence. reflexivity.
Qed.

(* ------------------------------------------------------------------ *)
(** ** Examples of the further properties *)

(** A record marked Ignore is left alone. *)
Lemma checkLink_inactive_witness :
  checkLink string (@inl string error) Site.ResolveReference (@id string) Site.Get insertionSort
    Site.now (set_State (Site.withFeed "/feed.xml" 0) LinkIgnore) =
  (set_State (Site.withFeed "/feed.xml" 0) LinkIgnore, []).
Proof.
  apply (checkLink_inactive string (@inl string error) Site.ResolveReference (@id string) Site.Get
           insertionSort Site.now (set_State (Site.withFeed "/feed.xml" 0) LinkIgnore)).
  left; reflexivity.
Defined.

(** A New record whose page answers 404. *)
Lemma checkLink_New_client_error_witness :
  checkLink string (@inl string error) Site.ResolveReference (@id string)
    (fun _ => Resp 404 "404 Not Found" ["text/html"] []) insertionSort
    Site.now (set_State (Site.withFeed "" 0) LinkIsNew) =
  (set_State (set_State (Site.withFeed "" 0) LinkIsNew) LinkNoFeedFound, ["https://x"]).
Proof.
  apply (checkLink_New_client_error string (@inl string error) Site.ResolveReference (@id string)
           (fun _ => Resp 404 "404 Not Found" ["text/html"] []) insertionSort Site.now
           (set_State (Site.withFeed "" 0) LinkIsNew) 404 "404 Not Found" ["text/html"] []);
    [reflexivity|reflexivity|lia|lia].
Defined.

(** A New record whose site cannot be reached. *)
Lemma checkLink_New_unreachable_witness :
  exists err,
  checkLink string (@inl string error) Site.ResolveReference (@id string) Site.Get insertionSort
    Site.now (mkLD "https://y" LinkIsNew "" None "Y" zeroTime zeroTime []) =
  (ErrorOccurred err (mkLD "https://y" LinkIsNew "" None "Y" zeroTime zeroTime []), ["https://y"]) /\
  IsTransient err = true.
Proof.
  apply (checkLink_New_unreachable string (@inl string error) Site.ResolveReference (@id string)
           Site.Get insertionSort Site.now (mkLD "https://y" LinkIsNew "" None "Y" zeroTime zeroTime []));
    [reflexivity|left; eexists; reflexivity].
Defined.

(** A New record whose page links only to an "About" page. *)
Lemma checkLink_New_no_feed_link_witness :
  checkLink string (@inl string error) Site.ResolveReference (@id string)
    (fun u => if String.eqb u "https://x" then
                Resp 200 "200 OK" ["text/html"] [RStart "a" (Site.href "/about"); RChar "About"; REnd "a"]
              else NetFail "connection refused") insertionSort
    Site.now (set_State (Site.withFeed "" 0) LinkIsNew) =
  (ErrorOccurred (MkTransientError "findFeedUrl: No link found in main page for X")
     (set_State (Site.withFeed "" 0) LinkIsNew), ["https://x"]).
Proof.
  rewrite (checkLink_New_no_feed_link string (@inl string error) Site.ResolveReference (@id string)
             (fun u => if String.eqb u "https://x" then
                         Resp 200 "200 OK" ["text/html"] [RStart "a" (Site.href "/about"); RChar "About"; REnd "a"]
                       else NetFail "connection refused") insertionSort
             Site.now (set_State (Site.withFeed "" 0) LinkIsNew) "200 OK" ["text/html"]
             [RStart "a" (Site.href "/about"); RChar "About"; REnd "a"]
             [Links.mkLink "About" "/about"] None).
  - reflexivity.
  - reflexivity.
  - reflexivity.
  - vm_compute; reflexivity.
  - left; reflexivity.
  - constructor; [vm_compute; reflexivity|constructor].
Defined.

(** Discovery of the example site finds "/feed.xml" and refreshes it. *)
Lemma checkLink_New_found_witness :
  checkLink string (@inl string error) Site.ResolveReference (@id string) Site.Get insertionSort
    Site.now (set_State (Site.withFeed "" 0) LinkIsNew) =
  (fst (checkForArticles string (@inl string error) Site.ResolveReference (@id string) Site.Get
          insertionSort Site.now
          (set_FeedUrl (set_State (set_State (Site.withFeed "" 0) LinkIsNew) LinkHasFeed) "/feed.xml")),
   (["https://x"; "https://x/feed.xml"] ++
    snd (checkForArticles string (@inl string error) Site.ResolveReference (@id string) Site.Get
           insertionSort Site.now
           (set_FeedUrl (set_State (set_State (Site.withFeed "" 0) LinkIsNew) LinkHasFeed) "/feed.xml")))%list).
Proof.
  apply (checkLink_New_found string (@inl string error) Site.ResolveReference (@id string) Site.Get
           insertionSort Site.now (set_State (Site.withFeed "" 0) LinkIsNew) "/feed.xml"
           ["https://x"; "https://x/feed.xml"]);
    [reflexivity|vm_compute; reflexivity].
Defined.

(** A due refresh of a feed URL the site does not serve. *)
Lemma checkForArticles_fetch_failed_witness :
  checkForArticles string (@inl string error) Site.ResolveReference (@id string) Site.Get insertionSort
    Site.now (Site.withFeed "/nothing.xml" 1000000000000) =
  (ErrorOccurred (ErrNet "connection refused") (set_Articles (Site.withFeed "/nothing.xml" 1000000000000) []),
   ["https://x/nothing.xml"]).
Proof.
  assert (Ht : minCheckDuration <= time_Sub Site.now (LastChecked (Site.withFeed "/nothing.xml" 1000000000000)))
    by (apply Z.leb_le; vm_compute; reflexivity).
  exact (proj1 (proj2 (checkForArticles_fetch_failed string (@inl string error) Site.ResolveReference
                         (@id string) Site.Get insertionSort Site.now
                         (Site.withFeed "/nothing.xml" 1000000000000) Ht))
           "https://x/nothing.xml" "connection refused" eq_refl eq_refl).
Defined.

(** The same URL configured twice keeps its first title. *)
Lemma interested_all_first_title_witness :
  exists l, Links (interested_all [("https://a", "A"); ("https://a", "A2")]) !! "https://a" = Some l /\
    heap (interested_all [("https://a", "A"); ("https://a", "A2")]) !! l = Some (newLinkDetails "https://a" "A").
Proof.
  apply (interested_all_first_title [("https://a", "A"); ("https://a", "A2")] [] "https://a" "A"
           [("https://a", "A2")]); [reflexivity|intros []].
Defined.

(** Text and a comment before the root element. *)
Lemma firstStartElement_first_witness :
  firstStartElement (([CharData "x"; OtherTok] ++ StartElement "rss" [] :: [EndElement "rss"])%list, ErrEOF) =
    inl (("rss", []), ([EndElement "rss"], ErrEOF)) /\
  firstStartElement ([CharData "x"; OtherTok], ErrEOF) = inr (MkError "No start element found.").
Proof.
  apply firstStartElement_first.
  constructor; [reflexivity|constructor; [reflexivity|constructor]].
Defined.

(** An [rss] root after a comment and white space. *)
Lemma recognizedFeedFormat_first_element_witness :
  recognizedFeedFormat ([ROther; RChar " "] ++ RStart "rss" [] :: [REnd "rss"]) = true.
Proof.
  rewrite (recognizedFeedFormat_first_element [ROther; RChar " "] "rss" [] [REnd "rss"]); [reflexivity|].
  constructor; [left; reflexivity|constructor; [right; eexists; reflexivity|constructor]].
Defined.

(** A channel whose metadata precedes an item with an attribute, then an
    item with a title and a link after some text. *)
Lemma feedParser_items_witness :
  feedParser
    (([StartElement "channel" []; StartElement "title" []; CharData "Blog"; EndElement "title";
       StartElement "item" [mkAttr "about" "x"];
       StartElement "title" []; CharData "T"; EndElement "title"; EndElement "item";
       CharData " "; StartElement "item" [];
       StartElement "title" []; CharData "U"; EndElement "title";
       StartElement "link" []; CharData "http://y"; EndElement "link"; EndElement "item"] ++
      [EndElement "channel"])%list, ErrEOF) ("rss", []) (Site.withFeed "/feed.xml" 0) =
  feedParser ([EndElement "channel"], ErrEOF) ("rss", [])
    (set_Articles (Site.withFeed "/feed.xml" 0)
       ((Articles (Site.withFeed "/feed.xml" 0) ++
         [Art.mkArticle "" "T" zeroTime; Art.mkArticle "http://y" "U" zeroTime])%list)).
Proof.
  apply (feedParser_items
           [([StartElement "channel" []; StartElement "title" []; CharData "Blog"; EndElement "title"],
             "item", [mkAttr "about" "x"],
             [StartElement "title" []; CharData "T"; EndElement "title"; EndElement "item"],
             Art.mkArticle "" "T" zeroTime);
            ([CharData " "], "item", [],
             [StartElement "title" []; CharData "U"; EndElement "title";
              StartElement "link" []; CharData "http://y"; EndElement "link"; EndElement "item"],
             Art.mkArticle "http://y" "U" zeroTime)]
           [EndElement "channel"] ErrEOF ("rss", []) (Site.withFeed "/feed.xml" 0)).
  repeat constructor; intros rest; reflexivity.
Defined.

(** An item whose two titles surround a link and a nested element. *)
Lemma genericExtractArticle_titles_witness :
  genericExtractArticle
    ([StartElement "title" []; CharData "Hello"; EndElement "title";
      StartElement "link" []; CharData "http://x"; EndElement "link";
      StartElement "description" []; StartElement "b" []; CharData "bold"; EndElement "b";
      EndElement "description";
      StartElement "title" [mkAttr "type" "text"]; CharData ", world"; EndElement "title";
      EndElement "item"; EndElement "channel"], ErrEOF) false =
  (inl (Art.mkArticle "http://x" "Hello, world" zeroTime), ([EndElement "channel"], ErrEOF)) /\
  Art.Title (Art.mkArticle "http://x" "Hello, world" zeroTime) = "Hello, world".
Proof.
  assert (H : genericExtractArticle
    ([StartElement "title" []; CharData "Hello"; EndElement "title";
      StartElement "link" []; CharData "http://x"; EndElement "link";
      StartElement "description" []; StartElement "b" []; CharData "bold"; EndElement "b";
      EndElement "description";
      StartElement "title" [mkAttr "type" "text"]; CharData ", world"; EndElement "title";
      EndElement "item"; EndElement "channel"], ErrEOF) false =
    (inl (Art.mkArticle "http://x" "Hello, world" zeroTime), ([EndElement "channel"], ErrEOF)))
    by (vm_compute; reflexivity).
  split; [exact H|].
  exact (proj1 (genericExtractArticle_titles
    [inr ([], "Hello");
     inl [StartElement "link" []; CharData "http://x"; EndElement "link";
          StartElement "description" []; StartElement "b" []; CharData "bold"; EndElement "b";
          EndElement "description"];
     inr ([mkAttr "type" "text"], ", world")]
    [EndElement "channel"] ErrEOF false _ _ ltac:(repeat constructor) H)).
Defined.

(** An anchor with a nested element and text after it, and an anchor
    the page ends inside. *)
Lemma checkForAnchor_body_witness :
  Links.checkForAnchor (Links.mkToken Links.StartTagToken "a" [mkAttr "href" "/feed"])
    [Links.mkToken Links.StartTagToken "b" []; Links.mkToken Links.TextToken "RSS" [];
     Links.mkToken Links.EndTagToken "b" []; Links.mkToken Links.TextToken " feed" [];
     Links.mkToken Links.EndTagToken "a" []; Links.mkToken Links.TextToken "after" []] [] =
  (([Links.mkLink "RSS feed" "/feed"], None), [Links.mkToken Links.TextToken "after" []]) /\
  Links.checkForAnchor (Links.mkToken Links.StartTagToken "a" [mkAttr "href" "/feed"])
    [Links.mkToken Links.StartTagToken "b" []; Links.mkToken Links.TextToken "x" []] [] =
  (([], Some (ErrFmt "EOF while parsing anchor body.")), []).
Proof.
  split.
  - exact (proj1 (checkForAnchor_body (Links.mkToken Links.StartTagToken "a" [mkAttr "href" "/feed"])
            (mkAttr "href" "/feed")
            [Links.mkToken Links.StartTagToken "b" []; Links.mkToken Links.TextToken "RSS" [];
             Links.mkToken Links.EndTagToken "b" []; Links.mkToken Links.TextToken " feed" []]
            (Links.mkToken Links.EndTagToken "a" []) [Links.mkToken Links.TextToken "after" []] []
            eq_refl eq_refl) eq_refl eq_refl).
  - exact (proj2 (checkForAnchor_body (Links.mkToken Links.StartTagToken "a" [mkAttr "href" "/feed"])
            (mkAttr "href" "/feed")
            [Links.mkToken Links.StartTagToken "b" []; Links.mkToken Links.TextToken "x" []]
            (Links.mkToken Links.EndTagToken "a" []) [] []
            eq_refl eq_refl) 1 eq_refl).
Defined.

(** A page head with an RSS [LINK] tag, an empty-element stylesheet link,
    a link with no [href], and an empty-element [a] tag. *)
Lemma Extract_link_tags_witness :
  Links.Extract
    [RStart "HTML" []; RStart "head" [];
     RStart "LINK" [mkAttr "Rel" "alternate"; mkAttr "TYPE" "application/rss+xml"; mkAttr "href" "/feed.xml"];
     RSelf "link" [mkAttr "href" "/style.css"]; RStart "link" [mkAttr "rel" "icon"]; REnd "head";
     RChar "hi"; RSelf "a" [mkAttr "href" "/x"]; REnd "html"] =
  ([Links.mkLink "application/rss+xml" "/feed.xml"; Links.mkLink "Some Link" "/style.css"], None).
Proof.
  rewrite Extract_link_tags by (vm_compute; reflexivity). vm_compute. reflexivity.
Defined.

(** Swapping the two articles of a two-element array. *)
Lemma ArticleArray_Swap_spec_witness :
  exists aa', ArticleArray_Swap [Site.oldArticle; emptyArticle] 0 1 = Some aa' /\
    [Site.oldArticle; emptyArticle] ≡ₚ aa' /\
    aa' !! 0%nat = [Site.oldArticle; emptyArticle] !! 1%nat /\
    aa' !! 1%nat = [Site.oldArticle; emptyArticle] !! 0%nat /\
    (forall k, k <> 0%nat -> k <> 1%nat -> aa' !! k = [Site.oldArticle; emptyArticle] !! k).
Proof.
  apply (ArticleArray_Swap_spec [Site.oldArticle; emptyArticle] 0 1); simpl; lia.
Defined.
